(** * pushover: a command-line client for the Pushover message API

    A shallow embedding of [main.go].  The program is one function, [main],
    that reads flags, loads a configuration file, builds a form-encoded
    request and posts it.  The embedding keeps that shape:

    - the local variables of [main] are a record ([Locals]); the pointers
      handed to the [flag] package are first-class ([Ref]), so that two
      flags bound to the same variable really share it;
    - process effects (lines on standard error, the configuration read, the
      HTTP exchange, [os.Exit]) live in a small monad [Proc]: a chronological
      event list and either a value or an exit status;
    - the packages [main] calls ([flag], [url], [strings], [io], [log]) are
      modelled in modules of the same names, following the Go standard
      library; the few routines whose text format does not matter here
      ([strconv.Quote], the integer and duration syntaxes) are fields of the
      class [Strconv]. *)

From stdpp Require Import gmap strings list sorting pretty.
From Stdlib Require Import ZArith Ascii.

Local Open Scope Z_scope.
#[local] Set Warnings "-clear-no-such-hyp".

(** ** Errors, results, events and the process monad *)

(** Go's [error] values.  [flag.ErrHelp] is compared by identity in the
    library, every other error only contributes its text. *)
Inductive error : Type :=
  | ErrHelp
  | errorString (text : string).

Definition Error_text (e : error) : string :=
  match e with
  | ErrHelp => "flag: help requested"
  | errorString text => text
  end.

(** A Go pair [(T, error)] with the usual discipline: either a value or a
    non-nil error. *)
Inductive result (T : Type) : Type :=
  | Ok (v : T)
  | Failed (err : error).
Arguments Ok {T} v.
Arguments Failed {T} err.

(** The request handed to [http.DefaultClient.Do]; [Deadline] is the timeout
    of the context the request was made with. *)
Record Request : Type := mkRequest {
  Method : string;
  URL : string;
  Body : string;
  Deadline : Z
}.

(** What the process does to the outside world, in order. *)
Inductive Event : Type :=
  | Stderr (line : string)        (* one line on standard error *)
  | StderrDefaults                (* the flag table of flag.PrintDefaults *)
  | StdoutDescribe                (* sconf.Describe(os.Stdout, config) *)
  | ParseFile (path : string)     (* sconf.ParseFile(path, &config) *)
  | HttpDo (req : Request).       (* http.DefaultClient.Do(req) *)

Inductive Outcome (A : Type) : Type :=
  | Return (a : A)
  | Exit (code : Z).
Arguments Return {A} a.
Arguments Exit {A} code.

Definition Proc (A : Type) : Type := (list Event * Outcome A)%type.

Definition Proc_ret {A} (a : A) : Proc A := ([], Return a).

Definition Proc_bind {A B} (k : A → Proc B) (m : Proc A) : Proc B :=
  match m with
  | (t, Return a) => let '(t', o) := k a in (t ++ t', o)
  | (t, Exit code) => (t, Exit code)
  end.

#[global] Instance Proc_mret : MRet Proc := @Proc_ret.
#[global] Instance Proc_mbind : MBind Proc := @Proc_bind.

Definition emit (e : Event) : Proc unit := ([e], Return tt).

Definition events {A} (m : Proc A) : list Event := m.1.

(** The exit status of a process whose [main] is [m]: returning from
    [main] is status 0. *)
Definition status (m : Proc unit) : Z :=
  match m.2 with
  | Return _ => 0
  | Exit code => code
  end.

Module os.
(** [os.Exit(code)]: the process ends here, nothing after it runs. *)
Definition Exit {A} (code : Z) : Proc A := ([], Exit code).
End os.

(** ** Text routines of [strconv] and [time] used through [fmt] and [flag] *)

Class Strconv : Type := {
  (** [strconv.Quote], the [%q] verb *)
  Quote : string → string;
  (** [strconv.ParseInt(s, 0, strconv.IntSize)] with the error as [flag]
      reports it *)
  ParseInt : string → result Z;
  (** [time.ParseDuration(s)], in nanoseconds *)
  ParseDuration : string → result Z
}.

Module log.
(** The logger writes to standard error; [log.SetFlags(0)] removes the
    prefix, so a call is exactly its line. *)
Definition Println (line : string) : Proc unit := emit (Stderr line).
Definition Printf (line : string) : Proc unit := emit (Stderr line).
(** [log.Fatalf] is [Printf] followed by [os.Exit(1)]. *)
Definition Fatalf {A} (line : string) : Proc A :=
  emit (Stderr line) ;; os.Exit 1.
End log.

Module strings.
(** [strings.Join(elems, sep)] *)
Definition Join (elems : list string) (sep : string) : string :=
  String.concat sep elems.
End strings.

(** ** [net/url]: form values and their encoding *)

Module url.

(** [url.Values] is [map[string][]string]. *)
Abbreviation Values := (gmap string (list string)).

(** [v.Set(key, value)] replaces whatever the key held. *)
Definition Values_Set (key value : string) (v : Values) : Values :=
  <[key := [value]]> v.

Definition between (lo hi c : ascii) : bool :=
  (N_of_ascii lo <=? N_of_ascii c)%N && (N_of_ascii c <=? N_of_ascii hi)%N.

(** [shouldEscape(c, encodeQueryComponent)] *)
Definition shouldEscape (c : ascii) : bool :=
  if between "a" "z" c || between "A" "Z" c || between "0" "9" c then false
  else if (c =? "-")%char || (c =? "_")%char || (c =? ".")%char
          || (c =? "~")%char then false
  else true.

Definition upperhex (n : N) : ascii :=
  match String.get (N.to_nat n) "0123456789ABCDEF" with
  | Some c => c
  | None => "0"%char
  end.

(** [url.QueryEscape(s)] *)
Fixpoint QueryEscape (s : string) : string :=
  match s with
  | EmptyString => EmptyString
  | String c s' =>
      if (c =? " ")%char then String "+" (QueryEscape s')
      else if shouldEscape c then
        String "%" (String (upperhex (N.shiftr (N_of_ascii c) 4))
                   (String (upperhex (N.land (N_of_ascii c) 15))
                      (QueryEscape s')))
      else String c (QueryEscape s')
  end.

(** Go compares strings byte by byte. *)
Definition string_le (a b : string) : Prop := String.leb a b = true.

#[global] Instance string_le_dec : RelDecision string_le.
Proof. intros a b. unfold string_le. apply _. Defined.

(** One [key=value] pair appended to the buffer of [Encode]. *)
Definition write_pair (keyEscaped : string) (buf value : string) : string :=
  (if (String.length buf =? 0)%nat then buf else buf +:+ "&")
    +:+ keyEscaped +:+ "=" +:+ QueryEscape value.

Definition write_key (v : Values) (buf key : string) : string :=
  foldl (write_pair (QueryEscape key)) buf (default [] (v !! key)).

(** [v.Encode()], given the order [range] in which [for k := range v]
    happens to enumerate the keys (Go leaves it unspecified): the keys
    are collected, sorted, and written out. *)
Definition Encode (range : list string) (v : Values) : string :=
  if (size v =? 0)%nat then ""
  else foldl (write_key v) "" (merge_sort string_le range).

(** The keys of [v] in one particular order. *)
Definition keys (v : Values) : list string := (map_to_list v).*1.

End url.

(** ** [io]: readers *)

Module io.

(** An [io.Reader] over a finite stream: it delivers [content] and then
    reports end of file, or [failure] when the stream breaks there. *)
Record Reader : Type := mkReader {
  content : string;
  failure : option error
}.

(** [io.LimitReader(r, n)] reads from [r] but stops with end of file
    after [n] bytes. *)
Definition LimitReader (r : Reader) (n : nat) : Reader :=
  if bool_decide (n ≤ String.length (content r))%nat
  then mkReader (String.substring 0 n (content r)) None
  else r.

(** [io.ReadAll(r)] reads until an error or end of file and returns what
    it read; end of file is not an error. *)
Definition ReadAll (r : Reader) : string * option error :=
  (content r, failure r).

End io.

Module fmt.
(** [fmt.Sprintf("%d", n)] *)
Definition Sprintf_d (n : Z) : string := pretty n.
End fmt.

(** ** The variables of [main] and pointers to them *)

(** [time.Duration] counts nanoseconds. *)
Definition Second : Z := 1000000000.

Record Locals : Type := mkLocals {
  configPath : string;
  priority : string;
  title : string;
  retry : Z;
  expire : Z;
  timeout : Z;
  printConfig : bool
}.

(** [&configPath], [&priority], ...: the addresses [main] passes to the
    [flag] package, indexed by the type they point to. *)
Inductive Ref : Type → Type :=
  | ref_configPath : Ref string
  | ref_priority : Ref string
  | ref_title : Ref string
  | ref_retry : Ref Z
  | ref_expire : Ref Z
  | ref_timeout : Ref Z
  | ref_printConfig : Ref bool.

(** [*p] *)
Definition load {T} (p : Ref T) (l : Locals) : T :=
  match p in Ref T return T with
  | ref_configPath => configPath l
  | ref_priority => priority l
  | ref_title => title l
  | ref_retry => retry l
  | ref_expire => expire l
  | ref_timeout => timeout l
  | ref_printConfig => printConfig l
  end.

(** [*p = x] *)
Definition store {T} (p : Ref T) : T → Locals → Locals :=
  match p in Ref T return T → Locals → Locals with
  | ref_configPath => λ x l,
      mkLocals x (priority l) (title l) (retry l) (expire l) (timeout l) (printConfig l)
  | ref_priority => λ x l,
      mkLocals (configPath l) x (title l) (retry l) (expire l) (timeout l) (printConfig l)
  | ref_title => λ x l,
      mkLocals (configPath l) (priority l) x (retry l) (expire l) (timeout l) (printConfig l)
  | ref_retry => λ x l,
      mkLocals (configPath l) (priority l) (title l) x (expire l) (timeout l) (printConfig l)
  | ref_expire => λ x l,
      mkLocals (configPath l) (priority l) (title l) (retry l) x (timeout l) (printConfig l)
  | ref_timeout => λ x l,
      mkLocals (configPath l) (priority l) (title l) (retry l) (expire l) x (printConfig l)
  | ref_printConfig => λ x l,
      mkLocals (configPath l) (priority l) (title l) (retry l) (expire l) (timeout l) x
  end.

(** ** [flag]: the command-line flag set *)

Module flag.

(** The implementations of the interface [flag.Value] that [main] uses;
    each wraps the pointer it was created from. *)
Inductive Value : Type :=
  | boolValue (p : Ref bool)
  | stringValue (p : Ref string)
  | intValue (p : Ref Z)
  | durationValue (p : Ref Z).

Definition IsBoolFlag (v : Value) : bool :=
  match v with
  | boolValue _ => true
  | _ => false
  end.

Definition errParse : error := errorString "parse error".

Definition one_of (s : string) (cases : list string) : bool :=
  existsb (String.eqb s) cases.

(** [strconv.ParseBool], with the error replaced by [errParse] as
    [boolValue.Set] does. *)
Definition ParseBool (s : string) : result bool :=
  if one_of s ["1"; "t"; "T"; "true"; "TRUE"; "True"] then Ok true
  else if one_of s ["0"; "f"; "F"; "false"; "FALSE"; "False"] then Ok false
  else Failed errParse.

Definition set_through {T} (p : Ref T) (parsed : result T) (l : Locals)
  : result Locals :=
  match parsed with
  | Ok x => Ok (store p x l)
  | Failed err => Failed err
  end.

(** [Value.Set(s)]: parse the text and write through the pointer. *)
Definition Value_Set `{Strconv} (v : Value) (s : string) (l : Locals)
  : result Locals :=
  match v with
  | boolValue p => set_through p (ParseBool s) l
  | stringValue p => set_through p (Ok s) l
  | intValue p => set_through p (ParseInt s) l
  | durationValue p => set_through p (ParseDuration s) l
  end.

(** [flag.FlagSet].  [formal] maps a flag name to its value; [actual]
    records the flags that were set, here as the chronological list of
    (name, text) pairs given to [Value.Set]; [args] is what is left of the
    command line; [Usage] is the callback [flag.Usage]. *)
Record FlagSet : Type := mkFlagSet {
  Usage : Proc unit;
  formal : gmap string Value;
  actual : list (string * string);
  args : list string
}.

(** [flag.PrintDefaults()] *)
Definition PrintDefaults : Proc unit := emit StderrDefaults.

(** [flag.CommandLine] before any declaration; the default [Usage] prints
    a header and the defaults. *)
Definition CommandLine : FlagSet :=
  mkFlagSet (emit (Stderr "Usage of pushover:") ;; PrintDefaults) ∅ [] [].

Definition set_Usage (usage : Proc unit) (f : FlagSet) : FlagSet :=
  mkFlagSet usage (formal f) (actual f) (args f).

Definition set_args (rest : list string) (f : FlagSet) : FlagSet :=
  mkFlagSet (Usage f) (formal f) (actual f) rest.

Definition set_actual (name value : string) (f : FlagSet) : FlagSet :=
  mkFlagSet (Usage f) (formal f) (actual f ++ [(name, value)]) (args f).

(** [f.Var(value, name, usage)] *)
Definition Var (value : Value) (name : string) (f : FlagSet) : FlagSet :=
  mkFlagSet (Usage f) (<[name := value]> (formal f)) (actual f) (args f).

(** [flag.BoolVar(p, name, value, usage)] and its siblings: the default is
    written through the pointer, then the flag is declared. *)
Definition BoolVar (p : Ref bool) (name : string) (value : bool)
    (st : Locals * FlagSet) : Locals * FlagSet :=
  (store p value st.1, Var (boolValue p) name st.2).

Definition StringVar (p : Ref string) (name : string) (value : string)
    (st : Locals * FlagSet) : Locals * FlagSet :=
  (store p value st.1, Var (stringValue p) name st.2).

Definition IntVar (p : Ref Z) (name : string) (value : Z)
    (st : Locals * FlagSet) : Locals * FlagSet :=
  (store p value st.1, Var (intValue p) name st.2).

Definition DurationVar (p : Ref Z) (name : string) (value : Z)
    (st : Locals * FlagSet) : Locals * FlagSet :=
  (store p value st.1, Var (durationValue p) name st.2).

(** [f.failf(format, ...)]: print the message, call the usage callback,
    return the message as an error. *)
Definition failf (f : FlagSet) (msg : string) : Proc error :=
  emit (Stderr msg) ;; Usage f ;; mret (errorString msg).

Definition byte_is (i : nat) (c : ascii) (s : string) : bool :=
  match String.get i s with
  | Some x => (x =? c)%char
  | None => false
  end.

(** [s[n:]] *)
Definition slice_from (n : nat) (s : string) : string :=
  String.substring n (String.length s - n) s.

(** The loop of [parseOne] that looks for [=] from index 1 on: the name,
    the value, and whether there was one. *)
Definition split_value (name : string) : string * string * bool :=
  match String.index 1 "=" name with
  | Some i => (String.substring 0 i name, slice_from (S i) name, true)
  | None => (name, "", false)
  end.

(** [f.parseOne()]: whether a flag was seen, the error if any, and the
    memory afterwards. *)
Definition parseOne `{Strconv} (st : Locals * FlagSet)
  : Proc (bool * option error * (Locals * FlagSet)) :=
  let '(l, f) := st in
  match args f with
  | [] => mret (false, None, st)
  | s :: rest =>
    if (String.length s <? 2)%nat || negb (byte_is 0 "-" s)
    then mret (false, None, st)
    else
      let numMinuses := if byte_is 1 "-" s then 2%nat else 1%nat in
      if byte_is 1 "-" s && (String.length s =? 2)%nat
      then mret (false, None, (l, set_args rest f))
      else
        let name := slice_from numMinuses s in
        if (String.length name =? 0)%nat || byte_is 0 "-" name
           || byte_is 0 "=" name
        then err ← failf f ("bad flag syntax: " +:+ s);
             mret (false, Some err, st)
        else
          let f := set_args rest f in
          let '(name, value, hasValue) := split_value name in
          match formal f !! name with
          | None =>
            if one_of name ["help"; "h"]
            then Usage f ;; mret (false, Some ErrHelp, (l, f))
            else err ← failf f ("flag provided but not defined: -" +:+ name);
                 mret (false, Some err, (l, f))
          | Some flag =>
            if IsBoolFlag flag then
              if hasValue then
                match Value_Set flag value l with
                | Failed e =>
                  err ← failf f ("invalid boolean value " +:+ Quote value
                                 +:+ " for -" +:+ name +:+ ": "
                                 +:+ Error_text e);
                  mret (false, Some err, (l, f))
                | Ok l => mret (true, None, (l, set_actual name value f))
                end
              else
                match Value_Set flag "true" l with
                | Failed e =>
                  err ← failf f ("invalid boolean flag " +:+ name +:+ ": "
                                 +:+ Error_text e);
                  mret (false, Some err, (l, f))
                | Ok l => mret (true, None, (l, set_actual name "true" f))
                end
            else
              let '(value, hasValue, f) :=
                match hasValue, args f with
                | false, next :: rest => (next, true, set_args rest f)
                | _, _ => (value, hasValue, f)
                end in
              if negb hasValue
              then err ← failf f ("flag needs an argument: -" +:+ name);
                   mret (false, Some err, (l, f))
              else
                match Value_Set flag value l with
                | Failed e =>
                  err ← failf f ("invalid value " +:+ Quote value
                                 +:+ " for flag -" +:+ name +:+ ": "
                                 +:+ Error_text e);
                  mret (false, Some err, (l, f))
                | Ok l => mret (true, None, (l, set_actual name value f))
                end
          end
  end.

(** The loop of [f.Parse]: call [parseOne] while it sees flags; on an
    error the command-line flag set exits ([ExitOnError]).  Every flag
    seen consumes an argument, so [fuel] above the number of arguments is
    never used up (lemma [Parse_loop_fuel]). *)
Fixpoint Parse_loop `{Strconv} (fuel : nat) (st : Locals * FlagSet)
  : Proc (Locals * FlagSet) :=
  '(seen, err, st) ← parseOne st;
  if seen : bool then
    match fuel with
    | O => mret st
    | S fuel => Parse_loop fuel st
    end
  else
    match err with
    | None => mret st
    | Some ErrHelp => os.Exit 0
    | Some _ => os.Exit 2
    end.

(** [flag.Parse()] on the arguments after the program name. *)
Definition Parse `{Strconv} (arguments : list string) (st : Locals * FlagSet)
  : Proc (Locals * FlagSet) :=
  Parse_loop (length arguments) (st.1, set_args arguments st.2).

(** [flag.Args()] *)
Definition Args (f : FlagSet) : list string := args f.

End flag.

(** ** The configuration and the outside world *)

(** The package-level variable [config]. *)
Record Config : Type := mkConfig {
  AppToken : string;
  DestKey : string;
  Title : string
}.

Module http.
(** The part of [http.Response] the program looks at. *)
Record Response : Type := mkResponse {
  StatusCode : Z;
  Status : string;
  Body : io.Reader
}.

Definition StatusOK : Z := 200.
Definition MethodPost : string := "POST".

(** [http.NewRequestWithContext(ctx, method, url, body)] where [ctx]
    carries the timeout.  It fails on a malformed method or URL; the two
    given by [main] are constants the library accepts. *)
Definition NewRequestWithContext (timeout : Z) (method url body : string)
  : result Request :=
  Ok (mkRequest method url body timeout).
End http.

(** What one run cannot decide by itself: what [sconf.ParseFile] finds at a
    path, how the exchange with the server ends (a response, or a
    transport error such as a refused connection or the timeout), and the
    order in which the runtime enumerates the keys of a map in a
    [for k := range v] loop. *)
Record World : Type := mkWorld {
  sconf_ParseFile : string → result Config;
  http_Do : Request → result http.Response;
  range_keys : url.Values → list string
}.

(** A [range] loop visits every key of the map once, in some order. *)
Definition World_ok (w : World) : Prop :=
  ∀ v : url.Values, range_keys w v ≡ₚ url.keys v.

(** ** [main.go] *)

(** [xcheckf(err, format)]: fatal when [err] is not nil.  The value that came
    with the error is passed through. *)
Definition xcheckf {T} (r : result T) (what : string) : Proc T :=
  match r with
  | Ok v => mret v
  | Failed err => log.Fatalf (what +:+ ": " +:+ Error_text err)
  end.

(** Lines 39 to 45: the variables of [main] as declared. *)
Definition main_vars : Locals :=
  {| configPath := "/etc/pushover.conf";
     priority := "";
     title := "";
     retry := 300;
     expire := 3600;
     timeout := 30 * Second;
     printConfig := false |}.

(** Lines 55 to 59: the closure assigned to [flag.Usage]. *)
Definition main_Usage : Proc unit :=
  log.Println "usage: pushover [flags] message..." ;;
  flag.PrintDefaults ;;
  os.Exit 2.

(** Lines 48 to 59: the flag declarations, in order.  Each default is read
    from the variables as they are when the declaration runs. *)
Definition main_flags (l : Locals) : Locals * flag.FlagSet :=
  let st := (l, flag.CommandLine) in
  let st := flag.BoolVar ref_printConfig "printconfig" false st in
  let st := flag.StringVar ref_configPath "configpath" (configPath st.1) st in
  let st := flag.StringVar ref_priority "priority" (priority st.1) st in
  let st := flag.StringVar ref_title "title" "" st in
  let st := flag.IntVar ref_retry "retry" (retry st.1) st in
  let st := flag.IntVar ref_retry "expire" (expire st.1) st in
  let st := flag.DurationVar ref_timeout "timeout" (timeout st.1) st in
  (st.1, flag.set_Usage main_Usage st.2).

(** Lines 81 to 96: the [switch] on the priority text.  [p] is declared
    without a value, so the default case leaves it empty. *)
Definition main_priority `{Strconv} (priority : string) : Proc string :=
  let p := "" in
  if flag.one_of priority ["lowest"; "-2"] then mret "-2"
  else if flag.one_of priority ["low"; "-1"] then mret "-1"
  else if flag.one_of priority [""; "normal"; "0"] then mret "0"
  else if flag.one_of priority ["high"; "1"] then mret "1"
  else if flag.one_of priority ["highest"; "2"] then mret "2"
  else
    log.Printf ("invalid priority value " +:+ Quote priority) ;;
    main_Usage ;;
    mret p.

(** Lines 97 to 110: the optional fields, given the code [p]. *)
Definition main_optional (l : Locals) (config : Config) (p : string)
    (data : url.Values) : url.Values :=
  let data :=
    if negb (String.eqb p "0") then url.Values_Set "priority" p data
    else data in
  let data :=
    if String.eqb p "2" then
      let data := url.Values_Set "retry" (fmt.Sprintf_d (retry l)) data in
      url.Values_Set "expire" (fmt.Sprintf_d (expire l)) data
    else data in
  let title :=
    if String.eqb (title l) "" then Title config else title l in
  if negb (String.eqb title "") then url.Values_Set "title" title data
  else data.

(** Lines 76 to 110: the form of the request. *)
Definition main_form `{Strconv} (l : Locals) (config : Config) (msg : string)
  : Proc url.Values :=
  let data : url.Values := ∅ in
  let data := url.Values_Set "token" (AppToken config) data in
  let data := url.Values_Set "user" (DestKey config) data in
  let data := url.Values_Set "message" msg data in
  p ← main_priority (priority l);
  mret (main_optional l config p data).

Definition endpoint : string := "https://api.pushover.net/1/messages.json".

(** Lines 112 to 127: the exchange with the server. *)
Definition main_send `{Strconv} (w : World) (l : Locals) (data : url.Values)
  : Proc unit :=
  req ← xcheckf (http.NewRequestWithContext (timeout l) http.MethodPost
                   endpoint (url.Encode (range_keys w data) data))
                "making request";
  emit (HttpDo req) ;;
  resp ← xcheckf (http_Do w req) "api request";
  if negb (http.StatusCode resp =? http.StatusOK) then
    let '(respBody, err) :=
      io.ReadAll (io.LimitReader (http.Body resp) 1024) in
    match err with
    | Some err =>
        log.Printf ("warning: reading error response body: "
                    +:+ Error_text err)
    | None => mret tt
    end ;;
    log.Fatalf ("got status " +:+ Quote (http.Status resp)
                +:+ ", expected 200 ok, body " +:+ Quote respBody)
  else mret tt.

(** Lines 39 to 110 of [main], run on the arguments after the program
    name: everything up to the finished form.  The variables are returned
    with it because the exchange reads [timeout]. *)
Definition main_request `{Strconv} (w : World) (argv : list string)
  : Proc (Locals * url.Values) :=
  '(l, CommandLine) ← flag.Parse argv (main_flags main_vars);
  (if printConfig l then emit StdoutDescribe ;; os.Exit 0 else mret tt) ;;
  let args := flag.Args CommandLine in
  (if (length args =? 0)%nat then main_Usage else mret tt) ;;
  let msg := strings.Join args " " in
  emit (ParseFile (configPath l)) ;;
  config ← xcheckf (sconf_ParseFile w (configPath l)) "parsing config file";
  data ← main_form l config msg;
  mret (l, data).

(** [main]. *)
Definition main `{Strconv} (w : World) (argv : list string) : Proc unit :=
  '(l, data) ← main_request w argv;
  main_send w l data.

(** ** A concrete [Strconv] for the examples

    Decimal integers with an optional sign, durations written as whole
    seconds ([45s]), and quoting that only adds the quotation marks: the
    library's behaviour on such plain inputs. *)

Definition digit_of (c : ascii) : option Z :=
  if url.between "0" "9" c
  then Some (Z.of_N (N_of_ascii c) - 48)
  else None.

Fixpoint digits_from (acc : Z) (s : string) : option Z :=
  match s with
  | EmptyString => Some acc
  | String c s' =>
      match digit_of c with
      | Some d => digits_from (10 * acc + d) s'
      | None => None
      end
  end.

Definition decimal (s : string) : result Z :=
  match s with
  | EmptyString => Failed flag.errParse
  | String c s' =>
      let '(sign, body) :=
        if (c =? "-")%char then (-1, s')
        else if (c =? "+")%char then (1, s') else (1, s) in
      match body, digits_from 0 body with
      | String _ _, Some n => Ok (sign * n)
      | _, _ => Failed flag.errParse
      end
  end.

Definition plain_seconds (s : string) : result Z :=
  let n := String.length s in
  if flag.byte_is (n - 1) "s" s then
    match decimal (String.substring 0 (n - 1) s) with
    | Ok k => Ok (k * Second)
    | Failed e => Failed e
    end
  else Failed flag.errParse.

Definition quotation_mark : string := String (ascii_of_nat 34) EmptyString.

Definition plain_Strconv : Strconv :=
  {| Quote := λ s, quotation_mark +:+ s +:+ quotation_mark;
     ParseInt := decimal;
     ParseDuration := plain_seconds |}.

(** ** Vocabulary of the statements *)

(** The flag table [main] declares. *)
Definition main_formal : gmap string flag.Value :=
  flag.formal (main_flags main_vars).2.

(** The priority texts the [switch] has a case for. *)
Definition accepted_priorities : list string :=
  ["lowest"; "low"; "normal"; "high"; "highest";
   "-2"; "-1"; "0"; "1"; "2"; ""].

(** The text given to the last [-retry] or [-expire] set on the command
    line, if there was one. *)
Definition retry_or_expire (nv : string * string) : Prop :=
  nv.1 = "retry" ∨ nv.1 = "expire".

#[global] Instance retry_or_expire_dec nv : Decision (retry_or_expire nv).
Proof. unfold retry_or_expire. apply _. Defined.

Definition last_retry_or_expire (hist : list (string * string))
  : option string :=
  last (filter retry_or_expire hist).*2.

(** No request to the server among the events. *)
Definition is_HttpDo (e : Event) : bool :=
  match e with
  | HttpDo _ => true
  | _ => false
  end.

Definition no_http (t : list Event) : Prop :=
  Forall (λ e, is_HttpDo e = false) t.

(** The two lines [flag.Usage] leaves on standard error before it exits. *)
Definition usage_text : list Event :=
  [Stderr "usage: pushover [flags] message..."; StderrDefaults].

(** The request [main] posts for a finished form. *)
Definition request_of (w : World) (l : Locals) (data : url.Values) : Request :=
  mkRequest http.MethodPost endpoint (url.Encode (range_keys w data) data)
    (timeout l).

(** The warning about a failed read of the response body, if any. *)
Definition read_warning (err : option error) : list Event :=
  match err with
  | Some e => [Stderr ("warning: reading error response body: "
                       +:+ Error_text e)]
  | None => []
  end.

(** Worlds for the examples: every path holds the given configuration (or
    none), every request gets the given response, and map keys are
    enumerated in the order of [url.keys], or backwards. *)
Definition world_with (config : result Config) (resp : result http.Response)
  : World :=
  mkWorld (λ _, config) (λ _, resp) url.keys.

Definition world_backwards (config : result Config)
    (resp : result http.Response) : World :=
  mkWorld (λ _, config) (λ _, resp) (λ v, reverse (url.keys v)).

Definition sample_config : Config := mkConfig "tok" "usr" "Alerts".

Definition response_200 : http.Response :=
  http.mkResponse 200 "200 OK" (io.mkReader "{}" None).

Definition response_500 : http.Response :=
  http.mkResponse 500 "500 Internal Server Error" (io.mkReader "error" None).

Definition no_such_file : error :=
  errorString "open /etc/pushover.conf: no such file or directory".

(** What one call of [parseOne] can do when the usage callback is the one
    of [main]: stop without touching the variables, exit with status 2,
    or set one declared flag and consume its arguments. *)
Inductive parseOne_spec `{Strconv} (l : Locals) (f : flag.FlagSet)
  : Proc (bool * option error * (Locals * flag.FlagSet)) → Prop :=
  | parseOne_stop f' :
      flag.Usage f' = flag.Usage f → flag.formal f' = flag.formal f →
      flag.actual f' = flag.actual f →
      parseOne_spec l f ([], Return (false, None, (l, f')))
  | parseOne_fail t : no_http t → parseOne_spec l f (t, Exit 2)
  | parseOne_seen name value v l' rest :
      flag.formal f !! name = Some v →
      flag.Value_Set v value l = Ok l' →
      (length rest < length (flag.args f))%nat →
      parseOne_spec l f
        ([], Return (true, None,
                     (l', flag.set_actual name value (flag.set_args rest f)))).

(** What the variables and the history of set flags have in common at
    every point of the parse. *)
Definition retry_holds `{Strconv} (l : Locals) (hist : list (string * string))
  : Prop :=
  match last_retry_or_expire hist with
  | Some text => ParseInt text = Ok (retry l)
  | None => retry l = 3600
  end.

Definition Parse_inv `{Strconv} (l : Locals) (f : flag.FlagSet) : Prop :=
  flag.Usage f = main_Usage ∧ flag.formal f = main_formal
  ∧ expire l = 3600 ∧ retry_holds l (flag.actual f).

(** The form [main] builds once the priority code [p] is known: lines 77
    to 80 followed by lines 97 to 110. *)
Definition form_of (l : Locals) (config : Config) (msg p : string)
  : url.Values :=
  main_optional l config p
    (url.Values_Set "message" msg
       (url.Values_Set "user" (DestKey config)
          (url.Values_Set "token" (AppToken config) ∅))).

(** The line of [log.Fatalf] on line 126. *)
Definition fatal_status `{Strconv} (resp : http.Response) (respBody : string)
  : Event :=
  Stderr ("got status " +:+ Quote (http.Status resp)
          +:+ ", expected 200 ok, body " +:+ Quote respBody).

(** The table of the specification: every accepted priority text with its
    code. *)
Definition priority_table : list (string * Z) :=
  [("lowest", -2); ("low", -1); ("normal", 0); ("high", 1); ("highest", 2);
   ("-2", -2); ("-1", -1); ("0", 0); ("1", 1); ("2", 2); ("", 0)].

(** Sample runs for the examples: worlds, and the variables and flag set
    a parse leaves behind. *)
Definition w_ok : World := world_with (Ok sample_config) (Ok response_200).
Definition w_backwards : World :=
  world_backwards (Ok sample_config) (Ok response_200).
Definition w_missing : World :=
  world_with (Failed no_such_file) (Ok response_200).
Definition w_500 : World := world_with (Ok sample_config) (Ok response_500).

Definition parsed_vars (priority title : string) (retry : Z)
    (printConfig : bool) : Locals :=
  mkLocals "/etc/pushover.conf" priority title retry 3600 (30 * Second)
    printConfig.

Definition parsed_flags (actual : list (string * string))
    (args : list string) : flag.FlagSet :=
  flag.mkFlagSet main_Usage main_formal actual args.

(** ** Vocabulary of the further properties *)

(** The text given to the last occurrence of one flag on the command line,
    if there was one. *)
Definition last_given (name : string) (hist : list (string * string))
  : option string :=
  last (filter (λ nv, nv.1 = name) hist).*2.

(** A finer account of one call of [parseOne] than [parseOne_spec]: which
    arguments it looked at, and what a failure printed. *)
Inductive parseOne_step `{Strconv} (l : Locals) (f : flag.FlagSet)
  : Proc (bool * option error * (Locals * flag.FlagSet)) → Prop :=
  | step_no_flag :
      match flag.args f with
      | [] => True
      | s :: _ =>
          (String.length s <? 2)%nat || negb (flag.byte_is 0 "-" s) = true
      end →
      parseOne_step l f ([], Return (false, None, (l, f)))
  | step_terminator rest :
      flag.args f = "--" :: rest →
      parseOne_step l f ([], Return (false, None, (l, flag.set_args rest f)))
  | step_fail t :
      t = usage_text ∨ (∃ msg, t = Stderr msg :: usage_text) →
      parseOne_step l f (t, Exit 2)
  | step_seen name value v l' used rest :
      flag.formal f !! name = Some v →
      flag.Value_Set v value l = Ok l' →
      flag.args f = used ++ rest → used ≠ [] →
      parseOne_step l f
        ([], Return (true, None,
                     (l', flag.set_actual name value (flag.set_args rest f)))).

(** The keys [main] ever sets in the form. *)
Definition form_keys : list string :=
  ["token"; "user"; "message"; "priority"; "retry"; "expire"; "title"].

(** The spellings of the help request that [parseOne] recognises. *)
Definition help_flags : list string := ["-h"; "-help"; "--h"; "--help"].

(** The five variables whose flag is declared on the variable itself: each
    holds what the last occurrence of its flag gave, and its initial value
    when the flag was not set. *)
Definition bound_to_flags `{Strconv} (l : Locals)
    (hist : list (string * string)) : Prop :=
  title l = default "" (last_given "title" hist)
  ∧ priority l = default "" (last_given "priority" hist)
  ∧ configPath l = default "/etc/pushover.conf" (last_given "configpath" hist)
  ∧ match last_given "printconfig" hist with
    | Some text => flag.ParseBool text = Ok (printConfig l)
    | None => printConfig l = false
    end
  ∧ match last_given "timeout" hist with
    | Some text => ParseDuration text = Ok (timeout l)
    | None => timeout l = 30 * Second
    end.

(** How often a byte occurs in a text, and whether all its bytes pass a
    test. *)
Fixpoint count_byte (c : ascii) (s : string) : nat :=
  match s with
  | EmptyString => 0
  | String x s' => (if (x =? c)%char then 1 else 0) + count_byte c s'
  end.

Fixpoint all_bytes (P : ascii → bool) (s : string) : bool :=
  match s with
  | EmptyString => true
  | String x s' => P x && all_bytes P s'
  end.

(** The bytes an escaped query component can contain: letters, digits,
    [-_.~], and the two bytes escaping itself introduces. *)
Definition query_safe (c : ascii) : bool :=
  url.between "a" "z" c || url.between "A" "Z" c || url.between "0" "9" c
  || flag.one_of (String c EmptyString) ["-"; "_"; "."; "~"; "+"; "%"].

(** Reading an escaped text back, as the receiver of the form does: [+] is
    a space and [%XY] the byte with these two hexadecimal digits.  It is
    only applied to the output of [url.QueryEscape], where every [%] is
    followed by two digits; it serves to show that escaping loses
    nothing. *)
Definition hex_value (c : ascii) : N :=
  if url.between "0" "9" c then N_of_ascii c - 48
  else N_of_ascii c - 55.

Fixpoint unescape (s : string) : string :=
  match s with
  | EmptyString => EmptyString
  | String c s1 =>
      if (c =? "+")%char then String " " (unescape s1)
      else if (c =? "%")%char then
        match s1 with
        | String h (String lo s3) =>
            String (ascii_of_N (16 * hex_value h + hex_value lo)) (unescape s3)
        | _ => s
        end
      else String c (unescape s1)
  end.

(** What [url.QueryEscape] writes for one byte. *)
Definition escape_byte (c : ascii) : string :=
  url.QueryEscape (String c EmptyString).

(** The buffer of [Encode] after [n] pairs: empty before the first, and
    afterwards holding [n] equals signs and one ampersand fewer. *)
Definition pairs_written (buf : string) (n : nat) : Prop :=
  match n with
  | O => buf = ""
  | S m => buf ≠ "" ∧ count_byte "=" buf = n ∧ count_byte "&" buf = m
  end.

(** A world in which the server cannot be reached. *)
Definition connection_refused : error :=
  errorString "dial tcp: connect: connection refused".

Definition w_down : World :=
  world_with (Ok sample_config) (Failed connection_refused).

(** * Properties *)

(** ** The process monad *)

Lemma bind_Return {A B} (t : list Event) (a : A) (k : A → Proc B) :
  ((t, Return a) ≫= k) = (t ++ (k a).1, (k a).2).
Proof. unfold mbind, Proc_mbind, Proc_bind. by destruct (k a). Qed.

Lemma bind_Exit {A B} (t : list Event) code (k : A → Proc B) :
  ((t, Exit code) ≫= k) = (t, Exit code).
Proof. reflexivity. Qed.

(** ** The order on keys *)

Lemma string_compare_le_trans a b c :
  String.compare a b ≠ Gt → String.compare b c ≠ Gt →
  String.compare a c ≠ Gt.
Proof.
  revert b c. induction a as [|x a IH]; intros [|y b] [|z c]; simpl; try done.
  unfold Ascii.compare.
  destruct (N.compare_spec (N_of_ascii x) (N_of_ascii y)),
           (N.compare_spec (N_of_ascii y) (N_of_ascii z)),
           (N.compare_spec (N_of_ascii x) (N_of_ascii z));
    try done; try lia; eauto.
Qed.

Lemma string_le_compare a b : url.string_le a b ↔ String.compare a b ≠ Gt.
Proof.
  unfold url.string_le, String.leb. by destruct (String.compare a b).
Qed.

#[global] Instance string_le_trans : Transitive url.string_le.
Proof.
  intros a b c. rewrite !string_le_compare. apply string_compare_le_trans.
Qed.

#[global] Instance string_le_antisym : AntiSymm (=) url.string_le.
Proof. intros a b Hab Hba. by apply String.leb_antisym. Qed.

#[global] Instance string_le_total : Total url.string_le.
Proof. intros a b. apply String.leb_total. Qed.

(** Whatever order the keys are enumerated in, the sorted list is the
    same. *)
Lemma sorted_keys_unique (r1 r2 : list string) :
  r1 ≡ₚ r2 → merge_sort url.string_le r1 = merge_sort url.string_le r2.
Proof.
  intros Hp. apply (Sorted_unique url.string_le).
  - apply Sorted_merge_sort, _.
  - apply Sorted_merge_sort, _.
  - by rewrite !merge_sort_Permutation.
Qed.

Lemma Encode_range_irrelevant (r1 r2 : list string) (v : url.Values) :
  r1 ≡ₚ r2 → url.Encode r1 v = url.Encode r2 v.
Proof. intros Hp. unfold url.Encode. by rewrite (sorted_keys_unique r1 r2). Qed.

(** ** Flag parsing *)

Section flag_facts.
Context {text : Strconv}.

Lemma no_http_usage_text : no_http usage_text.
Proof. by repeat constructor. Qed.

Lemma failf_exits f msg :
  flag.Usage f = main_Usage →
  flag.failf f msg = (Stderr msg :: usage_text, Exit 2).
Proof. intros HU. unfold flag.failf. rewrite HU. reflexivity. Qed.

Lemma parseOne_cases l f :
  flag.Usage f = main_Usage → parseOne_spec l f (flag.parseOne (l, f)).
Proof.
  intros HU. unfold flag.parseOne.
  assert (Hfail : ∀ msg, no_http (Stderr msg :: usage_text))
    by (intros; by repeat constructor).
  destruct (flag.args f) as [|s rest] eqn:Hargs; [by constructor|].
  destruct (_ || _); [by constructor|].
  destruct (flag.byte_is 1 "-" s && _); [by constructor|].
  generalize (flag.slice_from (if flag.byte_is 1 "-" s then 2 else 1) s).
  intros name0.
  destruct (_ || _).
  { rewrite failf_exits by done. by constructor. }
  destruct (flag.split_value name0) as [[name value] hasValue].
  assert (HU' : flag.Usage (flag.set_args rest f) = main_Usage) by done.
  cbn [flag.formal flag.set_args flag.args].
  destruct (flag.formal f !! name) as [v|] eqn:Hv.
  2:{ destruct (flag.one_of name _).
      - rewrite HU'. constructor. apply no_http_usage_text.
      - rewrite failf_exits by done. by constructor. }
  destruct (flag.IsBoolFlag v), hasValue; cbn [negb].
  - destruct (flag.Value_Set v value l) eqn:HS.
    + eapply parseOne_seen; eauto. rewrite Hargs. simpl. lia.
    + rewrite failf_exits by done. by constructor.
  - destruct (flag.Value_Set v "true" l) eqn:HS.
    + eapply parseOne_seen; eauto. rewrite Hargs. simpl. lia.
    + rewrite failf_exits by done. by constructor.
  - destruct (flag.Value_Set v value l) eqn:HS.
    + eapply parseOne_seen; eauto. rewrite Hargs. simpl. lia.
    + rewrite failf_exits by done. by constructor.
  - destruct rest as [|next rest']; cbn [negb].
    + rewrite failf_exits by done. by constructor.
    + destruct (flag.Value_Set v next l) eqn:HS.
      * replace (flag.set_args rest' (flag.set_args (next :: rest') f))
          with (flag.set_args rest' f) by done.
        eapply parseOne_seen; eauto. rewrite Hargs. simpl. lia.
      * rewrite failf_exits by done. by constructor.
Qed.

(** The loop never runs out of fuel: any two amounts that cover the
    arguments left give the same run. *)
Lemma Parse_loop_fuel n m l f :
  flag.Usage f = main_Usage →
  (length (flag.args f) ≤ n)%nat → (length (flag.args f) ≤ m)%nat →
  flag.Parse_loop n (l, f) = flag.Parse_loop m (l, f).
Proof.
  revert m l f. induction n as [|n IH]; intros m l f HU Hn Hm;
    pose proof (parseOne_cases l f HU) as Hc;
    destruct m as [|m]; cbn [flag.Parse_loop];
    destruct Hc as [f1 HU1 HF HA|t1 Ht1|name value v l1 rest Hv HS Hlen];
    cbn; try done; try lia.
  rewrite (IH m); [done|done|cbn; lia..].
Qed.

Lemma Parse_fuel argv n :
  (length argv ≤ n)%nat →
  flag.Parse_loop n ((main_flags main_vars).1,
                     flag.set_args argv (main_flags main_vars).2)
  = flag.Parse argv (main_flags main_vars).
Proof. intros Hn. unfold flag.Parse. by apply Parse_loop_fuel. Qed.

Lemma Parse_loop_no_http fuel l f :
  flag.Usage f = main_Usage → no_http (flag.Parse_loop fuel (l, f)).1.
Proof.
  revert l f. induction fuel as [|fuel IH]; intros l f HU;
    pose proof (parseOne_cases l f HU) as Hc; cbn [flag.Parse_loop];
    destruct Hc as [f1 HU1 HF HA|t1 Ht1|name value v l1 rest Hv HS Hlen];
    cbn; try done; try by constructor.
  specialize (IH l1 (flag.set_actual name value (flag.set_args rest f)) HU).
  by destruct (flag.Parse_loop fuel _).
Qed.

Lemma main_formal_lookup name v :
  main_formal !! name = Some v →
  (name = "printconfig" ∧ v = flag.boolValue ref_printConfig)
  ∨ (name = "configpath" ∧ v = flag.stringValue ref_configPath)
  ∨ (name = "priority" ∧ v = flag.stringValue ref_priority)
  ∨ (name = "title" ∧ v = flag.stringValue ref_title)
  ∨ (name = "retry" ∧ v = flag.intValue ref_retry)
  ∨ (name = "expire" ∧ v = flag.intValue ref_retry)
  ∨ (name = "timeout" ∧ v = flag.durationValue ref_timeout).
Proof.
  unfold main_formal, main_flags. cbn -[insert lookup].
  unfold flag.Var. cbn -[insert lookup].
  rewrite !lookup_insert, lookup_empty.
  repeat case_decide; naive_solver.
Qed.

Lemma last_retry_or_expire_snoc hist name value :
  last_retry_or_expire (hist ++ [(name, value)]) =
    if decide (name = "retry" ∨ name = "expire") then Some value
    else last_retry_or_expire hist.
Proof.
  unfold last_retry_or_expire. rewrite filter_app, fmap_app.
  rewrite filter_cons, filter_nil.
  destruct (decide (retry_or_expire _)) as [Hd|Hd],
           (decide (_ ∨ _)) as [Hd'|Hd']; try done; simpl.
  - by rewrite last_snoc.
  - by rewrite app_nil_r.
Qed.

Lemma Value_Set_main name value v l l' :
  main_formal !! name = Some v →
  flag.Value_Set v value l = Ok l' →
  expire l' = expire l
  ∧ if decide (name = "retry" ∨ name = "expire")
    then ParseInt value = Ok (retry l')
    else retry l' = retry l.
Proof.
  intros Hv HS. apply main_formal_lookup in Hv.
  destruct Hv as [[-> ->]|[[-> ->]|[[-> ->]|[[-> ->]|[[-> ->]|[[-> ->]|[-> ->]]]]]]];
    cbn in HS; unfold flag.set_through in HS;
    (case_decide as Hd;
     [try (destruct Hd; discriminate)
     |try (exfalso; apply Hd; auto; fail)]);
    repeat case_match; simplify_eq; done.
Qed.

Lemma Parse_inv_set l f name value v l' rest :
  Parse_inv l f →
  flag.formal f !! name = Some v →
  flag.Value_Set v value l = Ok l' →
  Parse_inv l' (flag.set_actual name value (flag.set_args rest f)).
Proof.
  intros (HU & HF & He & Hr) Hv HS. rewrite HF in Hv.
  destruct (Value_Set_main _ _ _ _ _ Hv HS) as [He' Hr'].
  unfold Parse_inv, retry_holds in *. cbn [flag.Usage flag.formal flag.actual
    flag.set_actual flag.set_args].
  rewrite last_retry_or_expire_snoc.
  split_and!; [done|done|congruence|].
  case_decide; [done|]. by rewrite Hr'.
Qed.

Lemma Parse_loop_inv fuel l f t l' f' :
  Parse_inv l f →
  flag.Parse_loop fuel (l, f) = (t, Return (l', f')) →
  t = [] ∧ Parse_inv l' f'.
Proof.
  revert l f t. induction fuel as [|fuel IH]; intros l f t Hinv;
    pose proof (parseOne_cases l f (proj1 Hinv)) as Hc; cbn [flag.Parse_loop];
    destruct Hc as [f1 HU HF HA|t1 Ht1|name value v l1 rest Hv HS Hlen];
    cbn; try done.
  - intros [= <- <- <-]. split; [done|].
    destruct Hinv as (?&?&?&?). unfold Parse_inv. rewrite HU, HF, HA. done.
  - intros [= <- <- <-]. split; [done|]. by eapply Parse_inv_set.
  - intros [= <- <- <-]. split; [done|].
    destruct Hinv as (?&?&?&?). unfold Parse_inv. rewrite HU, HF, HA. done.
  - destruct (flag.Parse_loop fuel _) as [t2 o2] eqn:HL.
    intros [= <- ->]. eapply IH; [|exact HL]. by eapply Parse_inv_set.
Qed.

(** A parse that returns printed nothing, and the invariant holds of
    what it returns. *)
Lemma Parse_returns argv t l f :
  flag.Parse argv (main_flags main_vars) = (t, Return (l, f)) →
  t = [] ∧ Parse_inv l f.
Proof.
  unfold flag.Parse. apply Parse_loop_inv.
  by split_and!.
Qed.

Lemma Parse_no_http argv : no_http (flag.Parse argv (main_flags main_vars)).1.
Proof. unfold flag.Parse. by apply Parse_loop_no_http. Qed.

End flag_facts.

(** ** The run of [main] *)

Section main_facts.
Context {text : Strconv}.

Lemma one_of_elem s cases : flag.one_of s cases = true ↔ s ∈ cases.
Proof.
  unfold flag.one_of. rewrite existsb_exists. split.
  - intros (x & Hx & Heq). apply String.eqb_eq in Heq as ->.
    by apply list_elem_of_In.
  - intros Hs. exists s. split; [by apply list_elem_of_In|apply String.eqb_refl].
Qed.

Lemma main_priority_invalid s :
  s ∉ accepted_priorities →
  main_priority s =
    (Stderr ("invalid priority value " +:+ Quote s) :: usage_text, Exit 2).
Proof.
  intros Hs. unfold main_priority.
  repeat (destruct (flag.one_of s _) eqn:E;
          [apply one_of_elem, list_elem_of_In in E; exfalso; apply Hs;
           apply list_elem_of_In; simpl in *; tauto|clear E]).
  reflexivity.
Qed.

Lemma main_priority_returns s t p :
  main_priority s = (t, Return p) →
  t = [] ∧ s ∈ accepted_priorities
  ∧ ∃ c, p = fmt.Sprintf_d c ∧ -2 ≤ c ≤ 2.
Proof.
  unfold main_priority.
  repeat (destruct (flag.one_of s _) eqn:E;
          [apply one_of_elem, list_elem_of_In in E; intros [= <- <-];
           split_and!; [done|apply list_elem_of_In; simpl in *; tauto|]
          |clear E]).
  - by exists (-2).
  - by exists (-1).
  - by exists 0.
  - by exists 1.
  - by exists 2.
  - done.
Qed.

Lemma main_request_parsed w argv t l f :
  flag.Parse argv (main_flags main_vars) = (t, Return (l, f)) →
  main_request w argv =
    if printConfig l then ([StdoutDescribe], Exit 0)
    else if (length (flag.Args f) =? 0)%nat then (usage_text, Exit 2)
    else match sconf_ParseFile w (configPath l) with
         | Failed err =>
             ([ParseFile (configPath l);
               Stderr ("parsing config file: " +:+ Error_text err)], Exit 1)
         | Ok config =>
             match main_priority (priority l) with
             | (t', Return p) =>
                 (ParseFile (configPath l) :: t',
                  Return (l, form_of l config (strings.Join (flag.Args f) " ") p))
             | (t', Exit code) => (ParseFile (configPath l) :: t', Exit code)
             end
         end.
Proof.
  intros HP. destruct (Parse_returns _ _ _ _ HP) as [-> _].
  unfold main_request. rewrite HP. cbn.
  destruct (printConfig l); [done|].
  destruct (length (flag.Args f) =? 0)%nat; [done|]. cbn.
  destruct (sconf_ParseFile w (configPath l)); [|done]. cbn.
  unfold main_form.
  destruct (main_priority (priority l)) as [t' [p|code]]; cbn; [|done].
  by rewrite !app_nil_r.
Qed.

Lemma main_priority_no_http s : no_http (main_priority s).1.
Proof.
  unfold main_priority.
  repeat (destruct (flag.one_of s _); [by constructor|]).
  by repeat constructor.
Qed.

Lemma main_request_no_http w argv : no_http (main_request w argv).1.
Proof.
  destruct (flag.Parse argv (main_flags main_vars)) as [t0 [[l f]|code]] eqn:HP.
  - rewrite (main_request_parsed w _ _ _ _ HP).
    destruct (printConfig l); [by repeat constructor|].
    destruct (length (flag.Args f) =? 0)%nat; [by repeat constructor|].
    destruct (sconf_ParseFile w (configPath l)); [|by repeat constructor].
    pose proof (main_priority_no_http (priority l)) as Hp.
    destruct (main_priority (priority l)) as [t' [p|code]];
      cbn in Hp |- *; by constructor.
  - pose proof (Parse_no_http argv) as Hn.
    unfold main_request. by rewrite HP in Hn |- *.
Qed.

Lemma main_request_returns w argv t l data :
  main_request w argv = (t, Return (l, data)) →
  ∃ f config p,
    flag.Parse argv (main_flags main_vars) = ([], Return (l, f))
    ∧ printConfig l = false ∧ flag.Args f ≠ []
    ∧ sconf_ParseFile w (configPath l) = Ok config
    ∧ main_priority (priority l) = ([], Return p)
    ∧ data = form_of l config (strings.Join (flag.Args f) " ") p.
Proof.
  destruct (flag.Parse argv (main_flags main_vars)) as [t0 [[l0 f]|code]] eqn:HP.
  2:{ unfold main_request. by rewrite HP. }
  rewrite (main_request_parsed w _ _ _ _ HP).
  destruct (Parse_returns _ _ _ _ HP) as [-> _].
  destruct (printConfig l0) eqn:Hpc; [done|].
  destruct (flag.Args f) as [|a args] eqn:Hargs; [done|]. cbn [length Nat.eqb].
  destruct (sconf_ParseFile w (configPath l0)) as [config|] eqn:Hc; [|done].
  destruct (main_priority (priority l0)) as [t' [p|code]] eqn:Hp; [|done].
  destruct (main_priority_returns _ _ _ Hp) as (-> & _).
  intros [= <- <- <-]. exists f, config, p. rewrite Hargs. by split_and!.
Qed.

Lemma main_of_exit w argv t code :
  main_request w argv = (t, Exit code) → main w argv = (t, Exit code).
Proof. intros HR. unfold main. by rewrite HR. Qed.

Lemma main_of_return w argv t l data :
  main_request w argv = (t, Return (l, data)) →
  main w argv = (t ++ (main_send w l data).1, (main_send w l data).2).
Proof. intros HR. unfold main. by rewrite HR, bind_Return. Qed.

Lemma main_send_cases w l data :
  main_send w l data =
    match http_Do w (request_of w l data) with
    | Failed err =>
        ([HttpDo (request_of w l data);
          Stderr ("api request: " +:+ Error_text err)], Exit 1)
    | Ok resp =>
        if http.StatusCode resp =? http.StatusOK
        then ([HttpDo (request_of w l data)], Return tt)
        else
          let rd := io.ReadAll (io.LimitReader (http.Body resp) 1024) in
          (HttpDo (request_of w l data)
             :: read_warning rd.2 ++ [fatal_status resp rd.1], Exit 1)
    end.
Proof.
  unfold main_send. cbn. fold (request_of w l data).
  destruct (http_Do w (request_of w l data)) as [resp|err]; [|done]. cbn.
  destruct (http.StatusCode resp =? http.StatusOK); [done|]. cbn.
  by destruct (io.failure _).
Qed.

Lemma main_send_posts w l data :
  ∃ t', (main_send w l data).1 = HttpDo (request_of w l data) :: t'
        ∧ no_http t'.
Proof.
  rewrite main_send_cases.
  destruct (http_Do w (request_of w l data)) as [resp|err].
  - destruct (http.StatusCode resp =? http.StatusOK).
    + exists []. by split; [|constructor].
    + eexists. split; [done|].
      apply Forall_app. split; [|by repeat constructor].
      unfold read_warning. case_match; by repeat constructor.
  - eexists. split; [done|]. by repeat constructor.
Qed.

Lemma no_http_elem t req : no_http t → HttpDo req ∈ t → False.
Proof.
  intros Hn Hin. unfold no_http in Hn. rewrite Forall_forall in Hn.
  by specialize (Hn _ Hin).
Qed.

Lemma main_posts w argv t l data :
  main_request w argv = (t, Return (l, data)) →
  HttpDo (request_of w l data) ∈ events (main w argv).
Proof.
  intros HR. rewrite (main_of_return _ _ _ _ _ HR).
  destruct (main_send_posts w l data) as (t' & -> & _).
  unfold events. cbn. set_solver.
Qed.

Lemma main_HttpDo w argv req :
  HttpDo req ∈ events (main w argv) →
  ∃ t l data, main_request w argv = (t, Return (l, data))
              ∧ req = request_of w l data.
Proof.
  pose proof (main_request_no_http w argv) as Hn.
  destruct (main_request w argv) as [t [[l data]|code]] eqn:HR.
  - rewrite (main_of_return _ _ _ _ _ HR).
    destruct (main_send_posts w l data) as (t' & -> & Hn').
    unfold events. cbn. intros Hin. exists t, l, data. split; [done|].
    apply elem_of_app in Hin as [Hin|Hin];
      [by destruct (no_http_elem _ _ Hn Hin)|].
    apply elem_of_cons in Hin as [[= ->]|Hin]; [done|].
    by destruct (no_http_elem _ _ Hn' Hin).
  - rewrite (main_of_exit _ _ _ _ HR). intros Hin.
    by destruct (no_http_elem _ _ Hn Hin).
Qed.

Lemma form_of_lookup l config msg p :
  let data := form_of l config msg p in
  data !! "token" = Some [AppToken config]
  ∧ data !! "user" = Some [DestKey config]
  ∧ data !! "message" = Some [msg]
  ∧ data !! "priority" = (if String.eqb p "0" then None else Some [p])
  ∧ data !! "retry" =
      (if String.eqb p "2" then Some [fmt.Sprintf_d (retry l)] else None)
  ∧ data !! "expire" =
      (if String.eqb p "2" then Some [fmt.Sprintf_d (expire l)] else None)
  ∧ data !! "title" =
      (if String.eqb (title l) ""
       then if String.eqb (Title config) "" then None
            else Some [Title config]
       else Some [title l]).
Proof.
  unfold form_of, main_optional, url.Values_Set.
  destruct (String.eqb (title l) "") eqn:Ht;
    [destruct (String.eqb (Title config) "")|rewrite Ht];
    destruct (String.eqb p "0"), (String.eqb p "2"); cbn [negb];
    split_and!; by simplify_map_eq.
Qed.
End main_facts.

Lemma substring_prefix n s :
  String.prefix (String.substring 0 n s) s = true
  ∧ (String.length (String.substring 0 n s) ≤ n)%nat.
Proof.
  revert n. induction s as [|c s IH]; intros [|n]; simpl; try (split; [done|lia]).
  destruct (IH n) as [Hp Hl]. split; [|lia].
  by destruct (ascii_dec c c).
Qed.

Lemma prefix_refl s : String.prefix s s = true.
Proof. induction s as [|c s IH]; simpl; [done|]. by destruct (ascii_dec c c). Qed.

Lemma LimitReader_ReadAll r n :
  let rd := io.ReadAll (io.LimitReader r n) in
  (String.length rd.1 ≤ n)%nat ∧ String.prefix rd.1 (io.content r) = true
  ∧ (rd.2 = None ∨ rd.2 = io.failure r ∧ rd.1 = io.content r).
Proof.
  unfold io.ReadAll, io.LimitReader. case_bool_decide; cbn.
  - destruct (substring_prefix n (io.content r)). auto.
  - split_and!; [lia|apply prefix_refl|auto].
Qed.

Section claims.
Context {text : Strconv}.

(** C1.  Every run that builds a request resolved its priority to one of
    the codes -2..2, and the form carries [retry] and [expire] exactly
    when that code is 2 and [priority] exactly when it is not 0.  The run
    then posts this form. *)
Theorem C1_optional_fields w argv t l data :
  main_request w argv = (t, Return (l, data)) →
  ∃ c : Z,
    main_priority (priority l) = ([], Return (fmt.Sprintf_d c))
    ∧ (is_Some (data !! "retry") ↔ c = 2)
    ∧ (is_Some (data !! "expire") ↔ c = 2)
    ∧ (is_Some (data !! "priority") ↔ c ≠ 0)
    ∧ HttpDo (request_of w l data) ∈ events (main w argv).
Proof.
  intros HR. pose proof (main_posts _ _ _ _ _ HR) as Hpost.
  apply main_request_returns in HR as (f & config & p & _ & _ & _ & _ & Hp & ->).
  destruct (main_priority_returns _ _ _ Hp) as (_ & _ & c & -> & Hc).
  exists c. split; [done|].
  destruct (form_of_lookup l config (strings.Join (flag.Args f) " ")
              (fmt.Sprintf_d c)) as (_ & _ & _ & -> & -> & -> & _).
  assert (c = -2 ∨ c = -1 ∨ c = 0 ∨ c = 1 ∨ c = 2) as Hcases by lia.
  destruct Hcases as [->|[->|[->|[->| ->]]]]; cbn;
    (split_and!; [| | |done]);
    (split; [intros Hs; try done; by destruct Hs|intros Hs; try done; eauto]).
Qed.

(** C2.  The [switch] maps every entry of the documented table (the five
    names, the five numerals, and the empty text for an unspecified
    priority) to its code, without printing anything. *)
Theorem C2_priority_codes s c :
  (s, c) ∈ priority_table →
  main_priority s = ([], Return (fmt.Sprintf_d c)) ∧ -2 ≤ c ≤ 2.
Proof.
  intros Hin. apply list_elem_of_In in Hin. simpl in Hin.
  repeat (destruct Hin as [[= <- <-]|Hin]; [split; [reflexivity|lia]|]).
  done.
Qed.

(** C4.  [-retry] and [-expire] are declared on the same variable
    [retry] and no flag points to [expire].  After any parse that returns,
    [expire] still has its initial value and [retry] holds the integer of
    the last [-retry] or [-expire] that was set (and the default of the
    declaration made last when neither was). *)
Theorem C4_expire_flag_writes_retry argv t l f :
  flag.Parse argv (main_flags main_vars) = (t, Return (l, f)) →
  main_formal !! "retry" = Some (flag.intValue ref_retry)
  ∧ main_formal !! "expire" = Some (flag.intValue ref_retry)
  ∧ (∀ name v, main_formal !! name = Some v →
       v ≠ flag.intValue ref_expire ∧ v ≠ flag.durationValue ref_expire)
  ∧ expire l = expire main_vars
  ∧ match last_retry_or_expire (flag.actual f) with
    | Some text => ParseInt text = Ok (retry l)
    | None => retry l = expire main_vars
    end.
Proof.
  intros HP. apply Parse_returns in HP as (_ & _ & _ & He & Hr).
  split_and!; [done|done| |done|done].
  intros name v Hv. apply main_formal_lookup in Hv.
  destruct Hv as [[_ ->]|[[_ ->]|[[_ ->]|[[_ ->]|[[_ ->]|[[_ ->]|[_ ->]]]]]]];
    done.
Qed.

(** C5.  For a priority text outside the accepted set the [switch] logs
    the invalid value, prints the usage text and exits with status 2.  No
    run whose [-priority] is such a text issues a request; a run that
    reaches the [switch] (no [-printconfig], a message, a configuration
    that loads) ends exactly there with status 2. *)
Theorem C5_invalid_priority s :
  s ∉ accepted_priorities →
  main_priority s =
    (Stderr ("invalid priority value " +:+ Quote s) :: usage_text, Exit 2)
  ∧ ∀ w argv t l f,
      flag.Parse argv (main_flags main_vars) = (t, Return (l, f)) →
      priority l = s →
      no_http (events (main w argv))
      ∧ ∀ config,
          printConfig l = false → flag.Args f ≠ [] →
          sconf_ParseFile w (configPath l) = Ok config →
          events (main w argv) =
            ParseFile (configPath l)
              :: Stderr ("invalid priority value " +:+ Quote s) :: usage_text
          ∧ status (main w argv) = 2.
Proof.
  intros Hs. pose proof (main_priority_invalid s Hs) as Hp.
  split; [done|]. intros w argv t l f HP <-.
  pose proof (main_request_parsed w _ _ _ _ HP) as HR.
  assert (∃ t' code, main_request w argv = (t', Exit code)) as (t' & code & HE).
  { rewrite HR, Hp.
    destruct (printConfig l); [by eauto|].
    destruct (length (flag.Args f) =? 0)%nat; [by eauto|].
    destruct (sconf_ParseFile w (configPath l)); by eauto. }
  split.
  - rewrite (main_of_exit _ _ _ _ HE).
    pose proof (main_request_no_http w argv) as Hn. by rewrite HE in Hn.
  - intros config Hpc Hargs Hconf.
    rewrite Hpc, Hconf, Hp in HR.
    destruct (flag.Args f) as [|a args]; [done|]. cbn in HR.
    by rewrite (main_of_exit _ _ _ _ HR).
Qed.

(** C6.  In the form of a run that builds a request, [title] is the
    [-title] value when that is not empty, else the configured [Title]
    when that is not empty, else absent. *)
Theorem C6_title_resolution w argv t l data :
  main_request w argv = (t, Return (l, data)) →
  ∃ config,
    sconf_ParseFile w (configPath l) = Ok config
    ∧ (title l ≠ "" → data !! "title" = Some [title l])
    ∧ (title l = "" → Title config ≠ "" →
         data !! "title" = Some [Title config])
    ∧ (title l = "" → Title config = "" → data !! "title" = None).
Proof.
  intros HR.
  apply main_request_returns in HR as (f & config & p & _ & _ & _ & Hc & _ & ->).
  exists config. split; [done|].
  destruct (form_of_lookup l config (strings.Join (flag.Args f) " ") p)
    as (_ & _ & _ & _ & _ & _ & ->).
  destruct (String.eqb_spec (title l) ""), (String.eqb_spec (Title config) "");
    by split_and!.
Qed.

(** C7.  Without [-printconfig]: with no positional argument the run
    prints the usage text on standard error and exits with status 2
    without a request; otherwise the [message] field of the form is the
    positional arguments joined with single spaces. *)
Theorem C7_message_arguments w argv t l f :
  flag.Parse argv (main_flags main_vars) = (t, Return (l, f)) →
  printConfig l = false →
  (flag.Args f = [] →
     events (main w argv) = usage_text ∧ status (main w argv) = 2
     ∧ no_http (events (main w argv)))
  ∧ (flag.Args f ≠ [] →
     ∀ t' l' data, main_request w argv = (t', Return (l', data)) →
       data !! "message" = Some [strings.Join (flag.Args f) " "]).
Proof.
  intros HP Hpc. split.
  - intros Hargs. pose proof (main_request_parsed w _ _ _ _ HP) as HR.
    rewrite Hpc, Hargs in HR. cbn in HR.
    rewrite (main_of_exit _ _ _ _ HR). split_and!; [done|done|].
    apply no_http_usage_text.
  - intros _ t' l' data HR.
    apply main_request_returns in HR as (f' & config & p & HP' & _ & _ & _ & _ & ->).
    destruct (Parse_returns _ _ _ _ HP) as [-> _].
    rewrite HP in HP'. injection HP' as <- <-.
    by destruct (form_of_lookup l config (strings.Join (flag.Args f) " ") p)
      as (_ & _ & -> & _).
Qed.

(** C8.  When the server answers with a status other than 200, at most
    1024 bytes of the body are read (a prefix of it); if that read failed
    a warning line is logged first; in either case the run ends on the
    fatal line that quotes the status text and the bytes read, with
    status 1. *)
Theorem C8_error_response w l data resp :
  http_Do w (request_of w l data) = Ok resp →
  http.StatusCode resp ≠ http.StatusOK →
  ∃ snippet err,
    io.ReadAll (io.LimitReader (http.Body resp) 1024) = (snippet, err)
    ∧ (String.length snippet ≤ 1024)%nat
    ∧ String.prefix snippet (io.content (http.Body resp)) = true
    ∧ (err = None ∨ err = io.failure (http.Body resp))
    ∧ main_send w l data =
        (HttpDo (request_of w l data)
           :: read_warning err ++ [fatal_status resp snippet], Exit 1)
    ∧ ∀ argv t, main_request w argv = (t, Return (l, data)) →
        last (events (main w argv)) = Some (fatal_status resp snippet)
        ∧ status (main w argv) = 1.
Proof.
  intros Hdo Hcode.
  pose proof (main_send_cases w l data) as HS. rewrite Hdo in HS.
  destruct (Z.eqb_spec (http.StatusCode resp) http.StatusOK); [done|].
  destruct (LimitReader_ReadAll (http.Body resp) 1024) as (Hlen & Hpre & He).
  destruct (io.ReadAll _) as [snippet err].
  cbn [fst snd] in HS, Hlen, Hpre, He.
  exists snippet, err. split_and!; try done.
  { destruct He as [?|[? _]]; auto. }
  intros argv t HR. rewrite (main_of_return _ _ _ _ _ HR), HS.
  unfold events, status. cbn. split; [|done].
  rewrite app_comm_cons, app_assoc. apply last_snoc.
Qed.

(** C9.  With [-printconfig] set the run writes the configuration
    template on standard output and exits with status 0, whatever the
    positional arguments are and whatever is at the configuration path:
    the file is not even read. *)
Theorem C9_printconfig_first w argv t l f :
  flag.Parse argv (main_flags main_vars) = (t, Return (l, f)) →
  printConfig l = true →
  main w argv = ([StdoutDescribe], Exit 0).
Proof.
  intros HP Hpc. pose proof (main_request_parsed w _ _ _ _ HP) as HR.
  rewrite Hpc in HR. by apply main_of_exit.
Qed.

(** What the highest priority sends, in general: [expire] is always 3600,
    and [retry] follows the last [-retry] or [-expire]. *)
Lemma highest_priority_fields w argv t l data :
  main_request w argv = (t, Return (l, data)) →
  main_priority (priority l) = ([], Return "2") →
  ∃ f,
    flag.Parse argv (main_flags main_vars) = ([], Return (l, f))
    ∧ data !! "expire" = Some [fmt.Sprintf_d 3600]
    ∧ data !! "retry" = Some [fmt.Sprintf_d (retry l)]
    ∧ match last_retry_or_expire (flag.actual f) with
      | Some text => ParseInt text = Ok (retry l)
      | None => retry l = 3600
      end.
Proof.
  intros HR Hp2.
  apply main_request_returns in HR as (f & config & p & HP & _ & _ & _ & Hp & ->).
  rewrite Hp2 in Hp. injection Hp as <-.
  destruct (Parse_returns _ _ _ _ HP) as (_ & _ & _ & He & Hr).
  destruct (form_of_lookup l config (strings.Join (flag.Args f) " ") "2")
    as (_ & _ & _ & _ & Hretry & Hexpire & _).
  exists f. rewrite Hretry, Hexpire, He. by split_and!.
Qed.

Lemma Encode_sorted range v :
  range ≡ₚ url.keys v →
  ∃ ks, Sorted url.string_le ks ∧ ks ≡ₚ url.keys v
        ∧ url.Encode range v = foldl (url.write_key v) "" ks.
Proof.
  intros Hp. exists (merge_sort url.string_le range). split_and!.
  - apply Sorted_merge_sort, _.
  - by rewrite merge_sort_Permutation.
  - unfold url.Encode. destruct (Nat.eqb_spec (size v) 0) as [Hz|]; [|done].
    apply map_size_empty_inv in Hz. subst v.
    unfold url.keys in Hp. rewrite map_to_list_empty in Hp.
    apply Permutation_nil_r in Hp. by subst range.
Qed.

(** C10.  Two runs with the same variables after flag parsing, the same
    positional arguments and the same loaded configuration post the same
    body, whatever order each runtime enumerates the map in; the body
    lists the keys of the form in increasing byte order. *)
Theorem C10_deterministic_body w1 w2 argv1 argv2 t1 t2 l f1 f2 req1 req2 :
  World_ok w1 → World_ok w2 →
  flag.Parse argv1 (main_flags main_vars) = (t1, Return (l, f1)) →
  flag.Parse argv2 (main_flags main_vars) = (t2, Return (l, f2)) →
  flag.Args f1 = flag.Args f2 →
  sconf_ParseFile w1 (configPath l) = sconf_ParseFile w2 (configPath l) →
  HttpDo req1 ∈ events (main w1 argv1) →
  HttpDo req2 ∈ events (main w2 argv2) →
  Body req1 = Body req2
  ∧ ∃ data ks,
      Sorted url.string_le ks ∧ ks ≡ₚ url.keys data
      ∧ Body req1 = foldl (url.write_key data) "" ks.
Proof.
  intros Hw1 Hw2 HP1 HP2 Hargs Hconf Hin1 Hin2.
  apply main_HttpDo in Hin1 as (? & l1 & data1 & HR1 & ->).
  apply main_HttpDo in Hin2 as (? & l2 & data2 & HR2 & ->).
  apply main_request_returns in HR1
    as (f1' & config1 & p1 & HP1' & _ & _ & Hc1 & Hp1 & ->).
  apply main_request_returns in HR2
    as (f2' & config2 & p2 & HP2' & _ & _ & Hc2 & Hp2 & ->).
  destruct (Parse_returns _ _ _ _ HP1) as [-> _].
  destruct (Parse_returns _ _ _ _ HP2) as [-> _].
  rewrite HP1 in HP1'. injection HP1' as <- <-.
  rewrite HP2 in HP2'. injection HP2' as <- <-.
  rewrite Hconf, Hc2 in Hc1. injection Hc1 as <-.
  rewrite Hp2 in Hp1. injection Hp1 as <-. rewrite <- Hargs.
  set (data := form_of l config2 (strings.Join (flag.Args f1) " ") p2).
  cbn [Body request_of]. split.
  - apply Encode_range_irrelevant. by rewrite (Hw1 data), (Hw2 data).
  - exists data. apply Encode_sorted, Hw1.
Qed.
End claims.

(** ** The runs of the examples *)

Section examples.
#[local] Existing Instance plain_Strconv.

Lemma World_ok_world_with config resp : World_ok (world_with config resp).
Proof. by intros v. Qed.

Lemma World_ok_world_backwards config resp :
  World_ok (world_backwards config resp).
Proof. intros v. apply reverse_Permutation. Qed.

Example Join_words :
  strings.Join ["Bad"; "stuff"; "happened"] " " = "Bad stuff happened".
Proof. reflexivity. Qed.

Example flags_in_both_forms :
  flag.Parse ["--retry=7"; "-title"; "A b"; "--"; "-x"]
    (main_flags main_vars)
  = ([], Return (parsed_vars "" "A b" 7 false,
                 parsed_flags [("retry", "7"); ("title", "A b")] ["-x"])).
Proof. reflexivity. Qed.

Example unknown_flag :
  main w_ok ["-nope"; "hello"]
  = (Stderr "flag provided but not defined: -nope" :: usage_text, Exit 2).
Proof. reflexivity. Qed.

Example missing_config :
  main w_missing ["hello"]
  = ([ParseFile "/etc/pushover.conf";
      Stderr ("parsing config file: "
              +:+ "open /etc/pushover.conf: no such file or directory")],
     Exit 1).
Proof. reflexivity. Qed.

(** C3.  The code at two inputs with the highest priority: [-expire 60]
    changes the [retry] field and leaves [expire] at 3600, and without
    either flag [retry] is 3600, the default of [-expire], not 300. *)
Theorem C3_expire_flag_lost :
  main w_ok ["-priority"; "2"; "-expire"; "60"; "hello"]
  = ([ParseFile "/etc/pushover.conf";
      HttpDo (mkRequest "POST" endpoint
                "expire=3600&message=hello&priority=2&retry=60&title=Alerts&token=tok&user=usr"
                (30 * Second))],
     Return tt)
  ∧ main w_ok ["-priority"; "2"; "hello"]
    = ([ParseFile "/etc/pushover.conf";
        HttpDo (mkRequest "POST" endpoint
                  "expire=3600&message=hello&priority=2&retry=3600&title=Alerts&token=tok&user=usr"
                  (30 * Second))],
       Return tt).
Proof. split; reflexivity. Qed.
End examples.

(** ** The theorems at concrete runs *)

#[local] Existing Instance plain_Strconv.

Lemma C1_optional_fields_witness :
  let argv := ["-priority"; "highest"; "hello"] in
  let l := parsed_vars "highest" "" 3600 false in
  let data := form_of l sample_config "hello" "2" in
  main_request w_ok argv = ([ParseFile "/etc/pushover.conf"], Return (l, data))
  ∧ ∃ c : Z,
      main_priority (priority l) = ([], Return (fmt.Sprintf_d c))
      ∧ (is_Some (data !! "retry") ↔ c = 2)
      ∧ (is_Some (data !! "expire") ↔ c = 2)
      ∧ (is_Some (data !! "priority") ↔ c ≠ 0)
      ∧ HttpDo (request_of w_ok l data) ∈ events (main w_ok argv).
Proof.
  intros argv l data. split; [reflexivity|].
  apply (C1_optional_fields w_ok argv [ParseFile "/etc/pushover.conf"] l data).
  reflexivity.
Defined.

Lemma C2_priority_codes_witness :
  ("highest", 2) ∈ priority_table
  ∧ main_priority "highest" = ([], Return (fmt.Sprintf_d 2)) ∧ -2 ≤ 2 ≤ 2.
Proof.
  assert (Hin : ("highest", 2) ∈ priority_table)
    by (apply list_elem_of_In; simpl; tauto).
  split; [exact Hin|]. exact (C2_priority_codes "highest" 2 Hin).
Defined.

Lemma C4_expire_flag_writes_retry_witness :
  let argv := ["-retry"; "5"; "-expire"; "60"; "hello"] in
  let l := parsed_vars "" "" 60 false in
  let f := parsed_flags [("retry", "5"); ("expire", "60")] ["hello"] in
  flag.Parse argv (main_flags main_vars) = ([], Return (l, f))
  ∧ expire l = 3600 ∧ retry l = 60
  ∧ last_retry_or_expire (flag.actual f) = Some "60".
Proof.
  intros argv l f.
  assert (HP : flag.Parse argv (main_flags main_vars) = ([], Return (l, f)))
    by reflexivity.
  split; [exact HP|].
  destruct (C4_expire_flag_writes_retry argv [] l f HP)
    as (_ & _ & _ & He & _).
  split; [exact He|]. split; reflexivity.
Defined.

Lemma C5_invalid_priority_witness :
  let argv := ["-priority"; "bogus"; "hello"] in
  ("bogus" ∉ accepted_priorities)
  ∧ main_priority "bogus" =
      (Stderr ("invalid priority value " +:+ Quote "bogus") :: usage_text,
       Exit 2)
  ∧ no_http (events (main w_ok argv))
  ∧ events (main w_ok argv) =
      ParseFile "/etc/pushover.conf"
        :: Stderr ("invalid priority value " +:+ Quote "bogus") :: usage_text
  ∧ status (main w_ok argv) = 2.
Proof.
  intros argv.
  assert (Hs : "bogus" ∉ accepted_priorities).
  { intros Hin. apply list_elem_of_In in Hin. simpl in Hin.
    repeat (destruct Hin as [Hin|Hin]; [discriminate Hin|]). exact Hin. }
  split; [exact Hs|].
  destruct (C5_invalid_priority "bogus" Hs) as [Hp Hrun].
  split; [exact Hp|].
  destruct (Hrun w_ok argv [] (parsed_vars "bogus" "" 3600 false)
              (parsed_flags [("priority", "bogus")] ["hello"]))
    as [Hn Hev]; [reflexivity|reflexivity|].
  split; [exact Hn|].
  apply (Hev sample_config); [reflexivity|discriminate|reflexivity].
Defined.

Lemma C6_title_resolution_witness :
  let argv := ["-title"; "X"; "hello"] in
  let l := parsed_vars "" "X" 3600 false in
  let data := form_of l sample_config "hello" "0" in
  main_request w_ok argv = ([ParseFile "/etc/pushover.conf"], Return (l, data))
  ∧ title l ≠ "" ∧ data !! "title" = Some ["X"].
Proof.
  intros argv l data.
  assert (HR : main_request w_ok argv
               = ([ParseFile "/etc/pushover.conf"], Return (l, data)))
    by reflexivity.
  split; [exact HR|]. split; [discriminate|].
  destruct (C6_title_resolution w_ok argv _ l data HR)
    as (config & _ & Hflag & _).
  apply Hflag. discriminate.
Defined.

Lemma C7_message_arguments_witness :
  let argv := ["Bad"; "stuff"; "happened"] in
  let l := parsed_vars "" "" 3600 false in
  let f := parsed_flags [] argv in
  let data := form_of l sample_config "Bad stuff happened" "0" in
  flag.Parse argv (main_flags main_vars) = ([], Return (l, f))
  ∧ printConfig l = false
  ∧ main_request w_ok argv
    = ([ParseFile "/etc/pushover.conf"], Return (l, data))
  ∧ data !! "message" = Some ["Bad stuff happened"].
Proof.
  intros argv l f data.
  assert (HP : flag.Parse argv (main_flags main_vars) = ([], Return (l, f)))
    by reflexivity.
  assert (HR : main_request w_ok argv
               = ([ParseFile "/etc/pushover.conf"], Return (l, data)))
    by reflexivity.
  split; [exact HP|]. split; [reflexivity|]. split; [exact HR|].
  destruct (C7_message_arguments w_ok argv [] l f HP eq_refl) as [_ Hmsg].
  apply (Hmsg ltac:(discriminate) _ l data HR).
Defined.

Lemma C8_error_response_witness :
  let l := parsed_vars "" "" 3600 false in
  let data := form_of l sample_config "hello" "0" in
  http_Do w_500 (request_of w_500 l data) = Ok response_500
  ∧ http.StatusCode response_500 ≠ http.StatusOK
  ∧ main_send w_500 l data =
      ([HttpDo (request_of w_500 l data);
        fatal_status response_500 "error"], Exit 1).
Proof.
  intros l data. split; [reflexivity|]. split; [discriminate|].
  destruct (C8_error_response w_500 l data response_500 eq_refl)
    as (snippet & err & Hrd & _ & _ & _ & HS & _); [discriminate|].
  injection Hrd as <- <-. exact HS.
Defined.

Lemma C9_printconfig_first_witness :
  let l := parsed_vars "" "" 3600 true in
  let f := parsed_flags [("printconfig", "true")] [] in
  flag.Parse ["-printconfig"] (main_flags main_vars) = ([], Return (l, f))
  ∧ printConfig l = true
  ∧ main w_missing ["-printconfig"] = ([StdoutDescribe], Exit 0).
Proof.
  intros l f. split; [reflexivity|]. split; [reflexivity|].
  apply (C9_printconfig_first w_missing ["-printconfig"] [] l f); reflexivity.
Defined.

Lemma C10_deterministic_body_witness :
  let argv := ["-priority"; "high"; "hello"; "world"] in
  let body := "message=hello+world&priority=1&title=Alerts&token=tok&user=usr" in
  let req := mkRequest "POST" endpoint body (30 * Second) in
  let l := parsed_vars "high" "" 3600 false in
  let f := parsed_flags [("priority", "high")] ["hello"; "world"] in
  (flag.Parse argv (main_flags main_vars) = ([], Return (l, f))
   ∧ events (main w_ok argv) = [ParseFile "/etc/pushover.conf"; HttpDo req]
   ∧ events (main w_backwards argv)
     = [ParseFile "/etc/pushover.conf"; HttpDo req]
   ∧ ∃ data ks,
       Sorted url.string_le ks ∧ ks ≡ₚ url.keys data
       ∧ body = foldl (url.write_key data) "" ks).
Proof.
  intros argv body req l f.
  assert (HP : flag.Parse argv (main_flags main_vars) = ([], Return (l, f)))
    by reflexivity.
  assert (E1 : events (main w_ok argv)
               = [ParseFile "/etc/pushover.conf"; HttpDo req]) by reflexivity.
  assert (E2 : events (main w_backwards argv)
               = [ParseFile "/etc/pushover.conf"; HttpDo req]) by reflexivity.
  split; [exact HP|]. split; [exact E1|]. split; [exact E2|].
  assert (H1 : HttpDo req ∈ events (main w_ok argv))
    by (rewrite E1; apply list_elem_of_In; simpl; tauto).
  assert (H2 : HttpDo req ∈ events (main w_backwards argv))
    by (rewrite E2; apply list_elem_of_In; simpl; tauto).
  exact (proj2 (C10_deterministic_body w_ok w_backwards argv argv [] [] l f f
                  req req
                  (World_ok_world_with _ _) (World_ok_world_backwards _ _)
                  HP HP eq_refl eq_refl H1 H2)).
Defined.

(** * Further properties of the code *)

Section more_flag_facts.
Context {text : Strconv}.

Lemma two_dashes s :
  flag.byte_is 0 "-" s = true → flag.byte_is 1 "-" s = true →
  (String.length s =? 2)%nat = true → s = "--".
Proof.
  destruct s as [|a [|b [|c s]]]; try done. unfold flag.byte_is. simpl.
  intros Ha Hb _. apply Ascii.eqb_eq in Ha, Hb. by subst.
Qed.

Lemma parseOne_steps l f :
  flag.Usage f = main_Usage → parseOne_step l f (flag.parseOne (l, f)).
Proof.
  intros HU. unfold flag.parseOne.
  destruct (flag.args f) as [|s rest] eqn:Hargs.
  { constructor. by rewrite Hargs. }
  destruct (_ || _) eqn:Hhead.
  { constructor. by rewrite Hargs. }
  apply orb_false_iff in Hhead as [_ Hdash]. apply negb_false_iff in Hdash.
  destruct (flag.byte_is 1 "-" s && _) eqn:Hterm.
  { apply andb_true_iff in Hterm as [H1 H2].
    rewrite (two_dashes s Hdash H1 H2) in Hargs.
    by apply step_terminator. }
  clear Hterm.
  generalize (flag.slice_from (if flag.byte_is 1 "-" s then 2 else 1) s).
  intros name0.
  destruct (_ || _).
  { rewrite failf_exits by done. constructor. eauto. }
  destruct (flag.split_value name0) as [[name value] hasValue].
  assert (HU' : flag.Usage (flag.set_args rest f) = main_Usage) by done.
  cbn [flag.formal flag.set_args flag.args].
  destruct (flag.formal f !! name) as [v|] eqn:Hv.
  2:{ destruct (flag.one_of name _).
      - rewrite HU'. constructor. by left.
      - rewrite failf_exits by done. constructor. eauto. }
  destruct (flag.IsBoolFlag v), hasValue; cbn [negb].
  - destruct (flag.Value_Set v value l) eqn:HS.
    + by eapply (step_seen _ _ _ _ _ _ [s]).
    + rewrite failf_exits by done. constructor. eauto.
  - destruct (flag.Value_Set v "true" l) eqn:HS.
    + by eapply (step_seen _ _ _ _ _ _ [s]).
    + rewrite failf_exits by done. constructor. eauto.
  - destruct (flag.Value_Set v value l) eqn:HS.
    + by eapply (step_seen _ _ _ _ _ _ [s]).
    + rewrite failf_exits by done. constructor. eauto.
  - destruct rest as [|next rest']; cbn [negb].
    + rewrite failf_exits by done. constructor. eauto.
    + destruct (flag.Value_Set v next l) eqn:HS.
      * replace (flag.set_args rest' (flag.set_args (next :: rest') f))
          with (flag.set_args rest' f) by done.
        by eapply (step_seen _ _ _ _ _ _ [s; next]).
      * rewrite failf_exits by done. constructor. eauto.
Qed.

Lemma Parse_loop_exit fuel l f t code :
  flag.Usage f = main_Usage →
  flag.Parse_loop fuel (l, f) = (t, Exit code) →
  code = 2 ∧ (t = usage_text ∨ ∃ msg, t = Stderr msg :: usage_text).
Proof.
  revert l f t. induction fuel as [|fuel IH]; intros l f t HU;
    pose proof (parseOne_steps l f HU) as Hc; cbn [flag.Parse_loop];
    destruct Hc as [Hhead|rest Hargs|t1 Ht1|name value v l1 used rest Hv HS Hargs Hu];
    cbn; try done; try (by intros [= <- <-]).
  destruct (flag.Parse_loop fuel _) as [t2 o2] eqn:HL.
  intros [= <- ->]. by eapply IH; [|exact HL].
Qed.

Lemma Parse_loop_suffix fuel l f t l' f' :
  flag.Usage f = main_Usage →
  flag.Parse_loop fuel (l, f) = (t, Return (l', f')) →
  ∃ used, flag.args f = used ++ flag.args f'.
Proof.
  revert l f t. induction fuel as [|fuel IH]; intros l f t HU;
    pose proof (parseOne_steps l f HU) as Hc; cbn [flag.Parse_loop];
    destruct Hc as [Hhead|rest Hargs|t1 Ht1|name value v l1 used rest Hv HS Hargs Hu];
    cbn; try done.
  - intros [= <- <- <-]. by exists [].
  - intros [= <- <- <-]. exists ["--"]. by rewrite Hargs.
  - intros [= <- <- <-]. exists used. by rewrite Hargs.
  - intros [= <- <- <-]. by exists [].
  - intros [= <- <- <-]. exists ["--"]. by rewrite Hargs.
  - destruct (flag.Parse_loop fuel _) as [t2 o2] eqn:HL.
    intros [= <- ->]. apply IH in HL as [used' Hused]; [|done].
    cbn in Hused. exists (used ++ used'). by rewrite Hargs, Hused, app_assoc.
Qed.

(** A property of the variables and the history that every flag set
    preserves holds after the parse. *)
Lemma Parse_loop_history (P : Locals → list (string * string) → Prop) :
  (∀ l hist name value v l',
     P l hist → main_formal !! name = Some v →
     flag.Value_Set v value l = Ok l' → P l' (hist ++ [(name, value)])) →
  ∀ fuel l f t l' f',
    flag.Usage f = main_Usage → flag.formal f = main_formal →
    P l (flag.actual f) →
    flag.Parse_loop fuel (l, f) = (t, Return (l', f')) →
    P l' (flag.actual f').
Proof.
  intros Hstep fuel. induction fuel as [|fuel IH]; intros l f t l' f' HU HF HP;
    pose proof (parseOne_cases l f HU) as Hc; cbn [flag.Parse_loop];
    destruct Hc as [f1 HU1 HF1 HA|t1 Ht1|name value v l1 rest Hv HS Hlen];
    cbn; try done.
  - intros [= <- <- <-]. by rewrite HA.
  - intros [= <- <- <-]. cbn. rewrite HF in Hv. eauto.
  - intros [= <- <- <-]. by rewrite HA.
  - destruct (flag.Parse_loop fuel _) as [t2 o2] eqn:HL.
    intros [= <- ->]. eapply IH; [| |  |exact HL]; try done.
    cbn. rewrite HF in Hv. eauto.
Qed.
End more_flag_facts.

Section more_main_facts.
Context {text : Strconv}.

Lemma last_given_snoc name hist n value :
  last_given name (hist ++ [(n, value)]) =
    if decide (n = name) then Some value else last_given name hist.
Proof.
  unfold last_given. rewrite filter_app, fmap_app, filter_cons, filter_nil.
  cbn [fst]. destruct (decide (n = name)); simpl.
  - by rewrite last_snoc.
  - by rewrite app_nil_r.
Qed.

Lemma Value_Set_bindings name value v l l' :
  main_formal !! name = Some v →
  flag.Value_Set v value l = Ok l' →
  title l' = (if decide (name = "title") then value else title l)
  ∧ priority l' = (if decide (name = "priority") then value else priority l)
  ∧ configPath l' =
      (if decide (name = "configpath") then value else configPath l)
  ∧ (if decide (name = "printconfig")
     then flag.ParseBool value = Ok (printConfig l')
     else printConfig l' = printConfig l)
  ∧ (if decide (name = "timeout")
     then ParseDuration value = Ok (timeout l')
     else timeout l' = timeout l).
Proof.
  intros Hv HS. apply main_formal_lookup in Hv.
  destruct Hv as [[-> ->]|[[-> ->]|[[-> ->]|[[-> ->]|[[-> ->]|[[-> ->]|[-> ->]]]]]]];
    cbn [flag.Value_Set] in HS; unfold flag.set_through in HS;
    repeat first [rewrite decide_False by discriminate
                 |rewrite decide_True by reflexivity].
  1: destruct (flag.ParseBool value); [|done].
  5, 6: destruct (ParseInt value); [|done].
  7: destruct (ParseDuration value); [|done].
  all: injection HS as <-; by split_and!.
Qed.

Lemma Parse_bound_to_flags argv t l f :
  flag.Parse argv (main_flags main_vars) = (t, Return (l, f)) →
  bound_to_flags l (flag.actual f).
Proof.
  unfold flag.Parse.
  apply (Parse_loop_history bound_to_flags); [|done|done|by split_and!].
  clear. intros l hist name value v l' (Ht & Hp & Hc & Hb & Hd) Hv HS.
  destruct (Value_Set_bindings _ _ _ _ _ Hv HS) as (Ht' & Hp' & Hc' & Hb' & Hd').
  unfold bound_to_flags. rewrite !last_given_snoc.
  rewrite Ht', Hp', Hc'. clear Ht' Hp' Hc'.
  apply main_formal_lookup in Hv.
  destruct Hv as [[-> _]|[[-> _]|[[-> _]|[[-> _]|[[-> _]|[[-> _]|[-> _]]]]]]];
    repeat first [rewrite decide_False in Hb' by discriminate
                 |rewrite decide_True in Hb' by reflexivity];
    repeat first [rewrite decide_False in Hd' by discriminate
                 |rewrite decide_True in Hd' by reflexivity];
    repeat first [rewrite decide_False by discriminate
                 |rewrite decide_True by reflexivity];
    split_and!; try done; try (by rewrite Hb'); by rewrite Hd'.
Qed.

(** X12.  After a parse that returns, [title], [priority], [configPath],
    [printConfig] and [timeout] each hold what the last occurrence of their
    own flag gave, and their initial value when it was not set. *)
Theorem flags_bound_to_their_variables argv t l f :
  flag.Parse argv (main_flags main_vars) = (t, Return (l, f)) →
  bound_to_flags l (flag.actual f).
Proof. apply Parse_bound_to_flags. Qed.
End more_main_facts.

Section more_run_facts.
Context {text : Strconv}.

Lemma main_request_trace w argv t l data :
  main_request w argv = (t, Return (l, data)) → t = [ParseFile (configPath l)].
Proof.
  intros HR. pose proof HR as HR'.
  apply main_request_returns in HR' as (f & config & p & HP & Hpc & Hargs & Hc & Hp & _).
  rewrite (main_request_parsed w _ _ _ _ HP), Hpc, Hc, Hp in HR.
  destruct (flag.Args f); [done|]. cbn in HR. by injection HR as <- _.
Qed.

(** X1.  When the configuration cannot be loaded, a run that got past the
    flags and has a message logs "parsing config file: <error>" and exits
    with status 1 without a request, whatever the priority text is: the
    file is read before the priority is looked at. *)
Theorem config_failure_is_fatal w argv t l f err :
  flag.Parse argv (main_flags main_vars) = (t, Return (l, f)) →
  printConfig l = false → flag.Args f ≠ [] →
  sconf_ParseFile w (configPath l) = Failed err →
  main w argv =
    ([ParseFile (configPath l);
      Stderr ("parsing config file: " +:+ Error_text err)], Exit 1).
Proof.
  intros HP Hpc Hargs Hc. apply main_of_exit.
  rewrite (main_request_parsed w _ _ _ _ HP), Hpc, Hc.
  by destruct (flag.Args f).
Qed.

(** X2.  When the exchange itself fails (no response), the run logs
    "api request: <error>" after the attempt and exits with status 1. *)
Theorem transport_error_is_fatal w argv t l data err :
  main_request w argv = (t, Return (l, data)) →
  http_Do w (request_of w l data) = Failed err →
  main w argv =
    ([ParseFile (configPath l); HttpDo (request_of w l data);
      Stderr ("api request: " +:+ Error_text err)], Exit 1).
Proof.
  intros HR Hdo. rewrite (main_of_return _ _ _ _ _ HR).
  rewrite (main_request_trace _ _ _ _ _ HR), main_send_cases, Hdo. done.
Qed.

(** X3.  On a response with status 200 the run reads the configuration,
    posts once, prints nothing and returns from [main] (status 0); the
    response body is not looked at. *)
Theorem success_is_silent w argv t l data resp :
  main_request w argv = (t, Return (l, data)) →
  http_Do w (request_of w l data) = Ok resp →
  http.StatusCode resp = http.StatusOK →
  main w argv =
    ([ParseFile (configPath l); HttpDo (request_of w l data)], Return tt).
Proof.
  intros HR Hdo Hcode. rewrite (main_of_return _ _ _ _ _ HR).
  rewrite (main_request_trace _ _ _ _ _ HR), main_send_cases, Hdo, Hcode. done.
Qed.

Lemma Parse_exit_usage w argv t code :
  flag.Parse argv (main_flags main_vars) = (t, Exit code) →
  main w argv = (t, Exit 2)
  ∧ (t = usage_text ∨ ∃ msg, t = Stderr msg :: usage_text).
Proof.
  intros HP. pose proof HP as HP'. unfold flag.Parse in HP'.
  apply Parse_loop_exit in HP' as [-> Ht]; [|done].
  split; [|done]. apply main_of_exit. unfold main_request. by rewrite HP.
Qed.

(** X8.  When flag parsing does not return, the run ends there with
    status 2 and what it printed is the usage text, preceded by at most one
    line naming the error: no file is read and nothing is sent. *)
Theorem flag_error_is_usage w argv t code :
  flag.Parse argv (main_flags main_vars) = (t, Exit code) →
  main w argv = (t, Exit 2)
  ∧ (t = usage_text ∨ ∃ msg, t = Stderr msg :: usage_text).
Proof. apply Parse_exit_usage. Qed.

(** X9.  A help request as first argument prints the usage text and
    exits with status 2, not 0: the usage callback of [main] exits before
    the library gets to treat [ErrHelp]. *)
Theorem help_exits_with_usage_status w h rest :
  h ∈ help_flags → main w (h :: rest) = (usage_text, Exit 2).
Proof.
  intros Hin. apply main_of_exit. unfold main_request.
  apply list_elem_of_In in Hin. simpl in Hin.
  destruct Hin as [<-|[<-|[<-|[<-|[]]]]]; reflexivity.
Qed.

Lemma main_priority_exit s t code :
  main_priority s = (t, Exit code) → code = 2.
Proof.
  unfold main_priority.
  repeat (destruct (flag.one_of s _); [done|]). by intros [= _ <-].
Qed.

(** X4.  The exit status of every run is 0, 1 or 2, and it is 0 exactly
    when [-printconfig] was set or the server answered a posted request
    with status 200. *)
Theorem exit_status w argv :
  (status (main w argv) = 0 ∨ status (main w argv) = 1
   ∨ status (main w argv) = 2)
  ∧ (status (main w argv) = 0 ↔
       (∃ t l f, flag.Parse argv (main_flags main_vars) = (t, Return (l, f))
                 ∧ printConfig l = true)
       ∨ (∃ t l data resp,
            main_request w argv = (t, Return (l, data))
            ∧ http_Do w (request_of w l data) = Ok resp
            ∧ http.StatusCode resp = http.StatusOK)).
Proof.
  destruct (flag.Parse argv (main_flags main_vars)) as [t0 [[l f]|code]] eqn:HP.
  2:{ destruct (Parse_exit_usage w _ _ _ HP) as [-> _].
      split; [auto|]. split; [done|].
      intros [(?&?&?&?&_)|(t&l&data&resp&HR&_)]; [done|].
      unfold main_request in HR. by rewrite HP in HR. }
  pose proof (main_request_parsed w _ _ _ _ HP) as HR.
  destruct (printConfig l) eqn:Hpc.
  { rewrite (main_of_exit _ _ _ _ HR). split; [auto|]. split; [|done].
    intros _. left. eauto. }
  destruct (main_request w argv) as [t1 [[l1 data]|code]] eqn:HR1.
  - rewrite (main_of_return _ _ _ _ _ HR1), main_send_cases. unfold status.
    destruct (http_Do w (request_of w l1 data)) as [resp|err] eqn:Hdo; cbn.
    + destruct (Z.eqb_spec (http.StatusCode resp) http.StatusOK) as [Hc|Hc]; cbn.
      * split; [auto|]. split; [|done]. intros _. right.
        by exists t1, l1, data, resp.
      * split; [auto|]. split; [done|].
        intros [(?&?&?&[= <- <- <-]&?)|(t&l2&data2&resp2&[= <- <- <-]&Hdo2&Hc2)];
          [congruence|].
        rewrite Hdo in Hdo2. by injection Hdo2 as <-.
    + split; [auto|]. split; [done|].
      intros [(?&?&?&[= <- <- <-]&?)|(t&l2&data2&resp2&[= <- <- <-]&Hdo2&_)];
        [congruence|].
      by rewrite Hdo in Hdo2.
  - rewrite (main_of_exit _ _ _ _ HR1). unfold status. cbn.
    assert (code = 1 ∨ code = 2) as Hcode.
    { destruct (length (flag.Args f) =? 0)%nat; [injection HR as _ <-; auto|].
      destruct (sconf_ParseFile w (configPath l)); [|injection HR as _ <-; auto].
      destruct (main_priority (priority l)) as [t' [p|c]] eqn:Hp; [done|].
      apply main_priority_exit in Hp as ->. injection HR as _ <-; auto. }
    split; [destruct Hcode; auto|]. split; [destruct Hcode; by subst|].
    intros [(?&?&?&[= <- <- <-]&?)|(t&l2&data2&resp2&[=]&_)]. congruence.
Qed.

End more_run_facts.

Section url_facts.

Lemma QueryEscape_cons c s :
  url.QueryEscape (String c s) = escape_byte c +:+ url.QueryEscape s.
Proof.
  unfold escape_byte. simpl.
  by destruct (c =? " ")%char, (url.shouldEscape c).
Qed.

Lemma escape_byte_safe c : all_bytes query_safe (escape_byte c) = true.
Proof. destruct c as [[] [] [] [] [] [] [] []]; reflexivity. Qed.

Lemma hex_digits_value c :
  ascii_of_N (16 * hex_value (url.upperhex (N.shiftr (N_of_ascii c) 4))
              + hex_value (url.upperhex (N.land (N_of_ascii c) 15))) = c.
Proof. destruct c as [[] [] [] [] [] [] [] []]; reflexivity. Qed.

Lemma unescape_percent h lo s :
  unescape (String "%" (String h (String lo s)))
  = String (ascii_of_N (16 * hex_value h + hex_value lo)) (unescape s).
Proof. reflexivity. Qed.

Lemma unescape_escape_byte c s :
  unescape (escape_byte c +:+ s) = String c (unescape s).
Proof.
  unfold escape_byte. cbn [url.QueryEscape].
  destruct (Ascii.eqb_spec c " ") as [->|_]; [reflexivity|].
  destruct (url.shouldEscape c) eqn:Hesc.
  - set (h := url.upperhex _). set (lo := url.upperhex _).
    change (unescape (String "%" (String h (String lo s)))
            = String c (unescape s)).
    rewrite unescape_percent. subst h lo. by rewrite hex_digits_value.
  - change (unescape (String c s) = String c (unescape s)).
    cbn [unescape].
    destruct (Ascii.eqb_spec c "+") as [->|_]; [done|].
    by destruct (Ascii.eqb_spec c "%") as [->|_].
Qed.

Lemma all_bytes_app P a b :
  all_bytes P (a +:+ b) = all_bytes P a && all_bytes P b.
Proof. induction a as [|x a IH]; simpl; [done|]. by rewrite IH, andb_assoc. Qed.

Lemma QueryEscape_safe_bytes s : all_bytes query_safe (url.QueryEscape s) = true.
Proof.
  induction s as [|c s IH]; [done|].
  by rewrite QueryEscape_cons, all_bytes_app, escape_byte_safe, IH.
Qed.

(** X13.  An escaped text contains only letters, digits and the bytes
    [-_.~+%]; in particular no [&], [=] or space. *)
Theorem QueryEscape_alphabet s :
  all_bytes query_safe (url.QueryEscape s) = true.
Proof. apply QueryEscape_safe_bytes. Qed.

Lemma unescape_QueryEscape s : unescape (url.QueryEscape s) = s.
Proof.
  induction s as [|c s IH]; [done|].
  by rewrite QueryEscape_cons, unescape_escape_byte, IH.
Qed.

(** X14.  Escaping loses nothing: two texts with the same escaped form are
    the same text. *)
Theorem QueryEscape_injective a b :
  url.QueryEscape a = url.QueryEscape b → a = b.
Proof.
  intros Heq. by rewrite <- (unescape_QueryEscape a), Heq, unescape_QueryEscape.
Qed.
End url_facts.

Section more_form_facts.
Context {text : Strconv}.

Lemma form_of_entries l config msg p k vs :
  form_of l config msg p !! k = Some vs → k ∈ form_keys ∧ ∃ x, vs = [x].
Proof.
  unfold form_of, main_optional, url.Values_Set.
  destruct (negb (String.eqb p "0")), (String.eqb p "2"),
    (negb (String.eqb (if String.eqb (title l) "" then Title config
                       else title l) ""));
    intros Hk;
    repeat (rewrite lookup_insert in Hk;
            destruct (decide _) as [<-|_];
            [injection Hk as <-;
             split; [apply list_elem_of_In; simpl; tauto|by eexists]|]);
    by rewrite lookup_empty in Hk.
Qed.

(** X7.  The form of every run that builds one carries the configured
    [AppToken] as [token] and [DestKey] as [user], the numeric code (never
    the symbolic name) as [priority] when the code is not 0, no key outside
    the seven of the API, and exactly one value per key. *)
Theorem form_fields w argv t l data :
  main_request w argv = (t, Return (l, data)) →
  ∃ config c,
    sconf_ParseFile w (configPath l) = Ok config
    ∧ main_priority (priority l) = ([], Return (fmt.Sprintf_d c))
    ∧ data !! "token" = Some [AppToken config]
    ∧ data !! "user" = Some [DestKey config]
    ∧ (c ≠ 0 → data !! "priority" = Some [fmt.Sprintf_d c])
    ∧ ∀ k vs, data !! k = Some vs → k ∈ form_keys ∧ ∃ x, vs = [x].
Proof.
  intros HR.
  apply main_request_returns in HR as (f & config & p & _ & _ & _ & Hc & Hp & ->).
  destruct (main_priority_returns _ _ _ Hp) as (_ & _ & c & -> & Hr).
  exists config, c.
  destruct (form_of_lookup l config (strings.Join (flag.Args f) " ")
              (fmt.Sprintf_d c)) as (Htok & Husr & _ & Hpri & _).
  split_and!; try done.
  - intros Hc0. rewrite Hpri.
    assert (c = -2 ∨ c = -1 ∨ c = 1 ∨ c = 2) as [->|[->|[->| ->]]] by lia; done.
  - intros k vs. apply form_of_entries.
Qed.

(** X16.  Whatever the [switch] resolves a priority text to is itself an
    accepted priority text that resolves to itself. *)
Theorem priority_code_is_accepted s t p :
  main_priority s = (t, Return p) → main_priority p = ([], Return p).
Proof.
  intros Hp. destruct (main_priority_returns _ _ _ Hp) as (_ & _ & c & -> & Hr).
  assert (c = -2 ∨ c = -1 ∨ c = 0 ∨ c = 1 ∨ c = 2)
    as [->|[->|[->|[->| ->]]]] by lia; reflexivity.
Qed.

(** X6.  Every request is a POST to the fixed endpoint, made under the
    timeout variable, which holds the duration of the last [-timeout] and
    30 seconds when the flag was not given. *)
Theorem request_is_post_to_endpoint w argv req :
  HttpDo req ∈ events (main w argv) →
  Method req = "POST"
  ∧ URL req = "https://api.pushover.net/1/messages.json"
  ∧ ∃ l f,
      flag.Parse argv (main_flags main_vars) = ([], Return (l, f))
      ∧ Deadline req = timeout l
      ∧ match last_given "timeout" (flag.actual f) with
        | Some text => ParseDuration text = Ok (Deadline req)
        | None => Deadline req = 30 * Second
        end.
Proof.
  intros Hin. apply main_HttpDo in Hin as (t & l & data & HR & ->).
  split; [done|]. split; [done|].
  apply main_request_returns in HR as (f & _ & _ & HP & _).
  exists l, f. split; [done|]. split; [done|].
  by destruct (Parse_bound_to_flags _ _ _ _ HP) as (_ & _ & _ & _ & Hd).
Qed.

(** X11.  The positional arguments left by a parse that returns are a
    suffix of the command line. *)
Theorem positional_arguments_are_a_suffix argv t l f :
  flag.Parse argv (main_flags main_vars) = (t, Return (l, f)) →
  ∃ used, argv = used ++ flag.Args f.
Proof.
  unfold flag.Parse. intros HP. by apply Parse_loop_suffix in HP.
Qed.

(** X10.  Parsing stops at the first argument that is not a flag (shorter
    than two bytes, or not starting with a dash): everything from there on
    is message text, flags included, and the variables keep the values the
    declarations gave them. *)
Theorem flags_after_the_message_are_text w s rest config :
  (String.length s <? 2)%nat || negb (flag.byte_is 0 "-" s) = true →
  sconf_ParseFile w "/etc/pushover.conf" = Ok config →
  let l := parsed_vars "" "" 3600 false in
  flag.Parse (s :: rest) (main_flags main_vars)
  = ([], Return (l, parsed_flags [] (s :: rest)))
  ∧ main_request w (s :: rest)
    = ([ParseFile "/etc/pushover.conf"],
       Return (l, form_of l config (strings.Join (s :: rest) " ") "0")).
Proof.
  intros Hs Hc l.
  assert (HP : flag.Parse (s :: rest) (main_flags main_vars)
               = ([], Return (l, parsed_flags [] (s :: rest)))).
  { unfold flag.Parse. cbn [length flag.Parse_loop].
    change (main_flags main_vars).1 with l.
    change (flag.set_args (s :: rest) (main_flags main_vars).2)
      with (parsed_flags [] (s :: rest)).
    unfold flag.parseOne. cbn [flag.args parsed_flags]. by rewrite Hs. }
  split; [done|].
  rewrite (main_request_parsed w _ _ _ _ HP). subst l.
  cbn [printConfig parsed_vars flag.Args flag.args parsed_flags length Nat.eqb
       configPath priority].
  by rewrite Hc.
Qed.
End more_form_facts.

Section body_facts.
Context {text : Strconv}.

Lemma count_byte_app c a b :
  count_byte c (a +:+ b) = (count_byte c a + count_byte c b)%nat.
Proof. induction a as [|x a IH]; simpl; [done|]. rewrite IH. lia. Qed.

Lemma count_byte_unsafe c s :
  query_safe c = false → all_bytes query_safe s = true → count_byte c s = 0%nat.
Proof.
  intros Hc. induction s as [|x s IH]; simpl; [done|].
  intros [Hx Hs]%andb_true_iff. rewrite (IH Hs).
  destruct (Ascii.eqb_spec x c) as [->|_]; [congruence|done].
Qed.

Lemma count_byte_QueryEscape c s :
  query_safe c = false → count_byte c (url.QueryEscape s) = 0%nat.
Proof. intros Hc. apply count_byte_unsafe, QueryEscape_safe_bytes. done. Qed.

Lemma write_pair_counts k buf x n :
  pairs_written buf n →
  pairs_written (url.write_pair (url.QueryEscape k) buf x) (S n).
Proof.
  unfold url.write_pair. intros Hn.
  assert (Heq : ∀ s, count_byte "=" (url.QueryEscape s) = 0%nat)
    by (intros; by apply count_byte_QueryEscape).
  assert (Hamp : ∀ s, count_byte "&" (url.QueryEscape s) = 0%nat)
    by (intros; by apply count_byte_QueryEscape).
  destruct n as [|m]; cbn in Hn.
  - subst buf. cbn [String.length Nat.eqb]. split_and!.
    + destruct (url.QueryEscape k); done.
    + rewrite !count_byte_app, !Heq. done.
    + rewrite !count_byte_app, !Hamp. done.
  - destruct Hn as (Hne & He & Ha).
    destruct buf as [|b buf]; [done|]. cbn [String.length Nat.eqb]. split_and!.
    + done.
    + rewrite !count_byte_app, !Heq, He. cbn. lia.
    + rewrite !count_byte_app, !Hamp, Ha. cbn. lia.
Qed.

Lemma write_keys_counts (v : url.Values) ks buf n :
  (∀ k, k ∈ ks → ∃ x, v !! k = Some [x]) →
  pairs_written buf n →
  pairs_written (foldl (url.write_key v) buf ks) (n + length ks).
Proof.
  revert buf n. induction ks as [|k ks IH]; intros buf n Hks Hn; simpl.
  - by rewrite Nat.add_0_r.
  - destruct (Hks k) as [x Hx]; [by left|].
    replace (n + S (length ks))%nat with (S n + length ks)%nat by lia.
    apply IH; [intros; apply Hks; by right|].
    unfold url.write_key. rewrite Hx. cbn. by apply write_pair_counts.
Qed.

(** X15.  The body of every request has exactly one [=] per field of the
    form and one [&] between consecutive fields, whatever bytes the
    message, the title and the credentials contain. *)
Theorem body_has_one_pair_per_field w argv t l data :
  World_ok w →
  main_request w argv = (t, Return (l, data)) →
  count_byte "=" (Body (request_of w l data)) = size data
  ∧ S (count_byte "&" (Body (request_of w l data))) = size data.
Proof.
  intros Hw HR. cbn [Body request_of].
  destruct (Encode_sorted (range_keys w data) data (Hw data))
    as (ks & _ & Hperm & ->).
  assert (Hlen : length ks = size data).
  { rewrite Hperm. unfold url.keys. by rewrite length_fmap, length_map_to_list. }
  assert (Hsingle : ∀ k, k ∈ ks → ∃ x, data !! k = Some [x]).
  { intros k Hk. rewrite Hperm in Hk. unfold url.keys in Hk.
    apply list_elem_of_fmap in Hk as ([k' vs] & -> & Hin).
    apply elem_of_map_to_list in Hin. cbn.
    apply main_request_returns in HR as (?&?&?&_&_&_&_&_&->).
    destruct (form_of_entries _ _ _ _ _ _ Hin) as (_ & y & ->). eauto. }
  pose proof (write_keys_counts data ks "" 0 Hsingle eq_refl) as Hc.
  cbn [Nat.add] in Hc. rewrite Hlen in Hc.
  assert (size data ≠ 0%nat) as Hne.
  { apply main_request_returns in HR as (f&config&p&_&_&_&_&_&->).
    intros Hz%map_size_empty_inv.
    pose proof (form_of_lookup l config (strings.Join (flag.Args f) " ") p)
      as (Htok & _). cbn in Htok. by rewrite Hz in Htok. }
  destruct (size data) as [|m]; [done|]. destruct Hc as (_ & -> & ->). done.
Qed.
End body_facts.

Section stdout_facts.
Context {text : Strconv}.

Lemma main_priority_exit_trace s t code :
  main_priority s = (t, Exit code) →
  t = Stderr ("invalid priority value " +:+ Quote s) :: usage_text.
Proof.
  unfold main_priority.
  repeat (destruct (flag.one_of s _); [done|]). by intros [= <- _].
Qed.

(** X17.  Standard output is written by [-printconfig] only: a run that
    writes the template does nothing else and exits with status 0. *)
Theorem stdout_only_for_printconfig w argv :
  StdoutDescribe ∈ events (main w argv) →
  main w argv = ([StdoutDescribe], Exit 0).
Proof.
  destruct (flag.Parse argv (main_flags main_vars)) as [t0 [[l f]|code]] eqn:HP.
  2:{ destruct (Parse_exit_usage w _ _ _ HP) as [-> [->|[msg ->]]];
        unfold events; cbn; intros Hin;
        repeat (apply elem_of_cons in Hin as [[=]|Hin]);
        by apply elem_of_nil in Hin. }
  pose proof (main_request_parsed w _ _ _ _ HP) as HR.
  destruct (printConfig l); [intros _; by apply main_of_exit|].
  destruct (length (flag.Args f) =? 0)%nat.
  { rewrite (main_of_exit _ _ _ _ HR). unfold events; cbn; intros Hin.
    repeat (apply elem_of_cons in Hin as [[=]|Hin]). by apply elem_of_nil in Hin. }
  destruct (sconf_ParseFile w (configPath l)) as [config|err].
  2:{ rewrite (main_of_exit _ _ _ _ HR). unfold events; cbn; intros Hin.
      repeat (apply elem_of_cons in Hin as [[=]|Hin]). by apply elem_of_nil in Hin. }
  destruct (main_priority (priority l)) as [t' [p|code]] eqn:Hp.
  - destruct (main_priority_returns _ _ _ Hp) as [-> _].
    rewrite (main_of_return _ _ _ _ _ HR), main_send_cases.
    destruct (http_Do w _) as [resp|err];
      [destruct (http.StatusCode resp =? http.StatusOK);
       [|destruct (io.failure (io.LimitReader (http.Body resp) 1024)) eqn:Hf;
         cbn [io.ReadAll snd fst]; rewrite Hf]|];
      unfold events; cbn; intros Hin;
      repeat (apply elem_of_cons in Hin as [[=]|Hin]); by apply elem_of_nil in Hin.
  - apply main_priority_exit_trace in Hp as ->.
    rewrite (main_of_exit _ _ _ _ HR). unfold events; cbn; intros Hin.
    repeat (apply elem_of_cons in Hin as [[=]|Hin]). by apply elem_of_nil in Hin.
Qed.
End stdout_facts.

(** ** The further properties at concrete runs *)

Lemma config_failure_is_fatal_witness :
  let argv := ["-priority"; "bogus"; "hello"] in
  let l := parsed_vars "bogus" "" 3600 false in
  let f := parsed_flags [("priority", "bogus")] ["hello"] in
  (flag.Parse argv (main_flags main_vars) = ([], Return (l, f))
   ∧ printConfig l = false ∧ flag.Args f ≠ []
   ∧ sconf_ParseFile w_missing (configPath l) = Failed no_such_file
   ∧ main w_missing argv =
       ([ParseFile "/etc/pushover.conf";
         Stderr ("parsing config file: " +:+ Error_text no_such_file)],
        Exit 1)).
Proof.
  intros argv l f.
  assert (HP : flag.Parse argv (main_flags main_vars) = ([], Return (l, f)))
    by reflexivity.
  split; [exact HP|]. split; [reflexivity|]. split; [discriminate|].
  split; [reflexivity|].
  apply (config_failure_is_fatal w_missing argv [] l f no_such_file HP);
    [reflexivity|discriminate|reflexivity].
Defined.

Lemma transport_error_is_fatal_witness :
  let argv := ["hello"] in
  let l := parsed_vars "" "" 3600 false in
  let data := form_of l sample_config "hello" "0" in
  (main_request w_down argv
   = ([ParseFile "/etc/pushover.conf"], Return (l, data))
   ∧ http_Do w_down (request_of w_down l data) = Failed connection_refused
   ∧ main w_down argv =
       ([ParseFile "/etc/pushover.conf"; HttpDo (request_of w_down l data);
         Stderr ("api request: " +:+ Error_text connection_refused)],
        Exit 1)).
Proof.
  intros argv l data.
  assert (HR : main_request w_down argv
               = ([ParseFile "/etc/pushover.conf"], Return (l, data)))
    by reflexivity.
  split; [exact HR|]. split; [reflexivity|].
  exact (transport_error_is_fatal w_down argv _ l data connection_refused
           HR eq_refl).
Defined.

Lemma success_is_silent_witness :
  let argv := ["hello"] in
  let l := parsed_vars "" "" 3600 false in
  let data := form_of l sample_config "hello" "0" in
  (main_request w_ok argv
   = ([ParseFile "/etc/pushover.conf"], Return (l, data))
   ∧ http_Do w_ok (request_of w_ok l data) = Ok response_200
   ∧ http.StatusCode response_200 = http.StatusOK
   ∧ main w_ok argv =
       ([ParseFile "/etc/pushover.conf"; HttpDo (request_of w_ok l data)],
        Return tt)).
Proof.
  intros argv l data.
  assert (HR : main_request w_ok argv
               = ([ParseFile "/etc/pushover.conf"], Return (l, data)))
    by reflexivity.
  split; [exact HR|]. split; [reflexivity|]. split; [reflexivity|].
  exact (success_is_silent w_ok argv _ l data response_200 HR eq_refl eq_refl).
Defined.


Lemma request_is_post_to_endpoint_witness :
  let argv := ["-timeout"; "5s"; "hello"] in
  let req :=
    mkRequest "POST" endpoint "message=hello&title=Alerts&token=tok&user=usr"
      (5 * Second) in
  (events (main w_ok argv) = [ParseFile "/etc/pushover.conf"; HttpDo req]
   ∧ Method req = "POST"
   ∧ URL req = "https://api.pushover.net/1/messages.json"
   ∧ Deadline req = 5 * Second).
Proof.
  intros argv req.
  assert (E : events (main w_ok argv)
              = [ParseFile "/etc/pushover.conf"; HttpDo req]) by reflexivity.
  split; [exact E|].
  assert (Hin : HttpDo req ∈ events (main w_ok argv))
    by (rewrite E; apply list_elem_of_In; simpl; tauto).
  destruct (request_is_post_to_endpoint w_ok argv req Hin) as (Hm & Hu & _).
  split; [exact Hm|]. split; [exact Hu|reflexivity].
Defined.

Lemma form_fields_witness :
  let argv := ["-priority"; "low"; "hello"] in
  let l := parsed_vars "low" "" 3600 false in
  let data := form_of l sample_config "hello" "-1" in
  (main_request w_ok argv
   = ([ParseFile "/etc/pushover.conf"], Return (l, data))
   ∧ ∃ config c,
       sconf_ParseFile w_ok (configPath l) = Ok config
       ∧ main_priority (priority l) = ([], Return (fmt.Sprintf_d c))
       ∧ data !! "token" = Some [AppToken config]
       ∧ data !! "user" = Some [DestKey config]
       ∧ (c ≠ 0 → data !! "priority" = Some [fmt.Sprintf_d c])
       ∧ ∀ k vs, data !! k = Some vs → k ∈ form_keys ∧ ∃ x, vs = [x]).
Proof.
  intros argv l data.
  assert (HR : main_request w_ok argv
               = ([ParseFile "/etc/pushover.conf"], Return (l, data)))
    by reflexivity.
  split; [exact HR|]. exact (form_fields w_ok argv _ l data HR).
Defined.

Lemma flag_error_is_usage_witness :
  let argv := ["-nope"; "hello"] in
  let t := Stderr "flag provided but not defined: -nope" :: usage_text in
  (flag.Parse argv (main_flags main_vars) = (t, Exit 2)
   ∧ main w_ok argv = (t, Exit 2)).
Proof.
  intros argv t.
  assert (HP : flag.Parse argv (main_flags main_vars) = (t, Exit 2))
    by reflexivity.
  split; [exact HP|]. exact (proj1 (flag_error_is_usage w_ok argv t 2 HP)).
Defined.

Lemma help_exits_with_usage_status_witness :
  "--help" ∈ help_flags
  ∧ main w_ok ["--help"; "hello"] = (usage_text, Exit 2).
Proof.
  assert (Hin : "--help" ∈ help_flags)
    by (apply list_elem_of_In; simpl; tauto).
  split; [exact Hin|].
  exact (help_exits_with_usage_status w_ok "--help" ["hello"] Hin).
Defined.

Lemma flags_after_the_message_are_text_witness :
  let rest := ["-priority"; "high"] in
  let l := parsed_vars "" "" 3600 false in
  ((String.length "hello" <? 2)%nat || negb (flag.byte_is 0 "-" "hello") = true
   ∧ sconf_ParseFile w_ok "/etc/pushover.conf" = Ok sample_config
   ∧ main_request w_ok ("hello" :: rest)
     = ([ParseFile "/etc/pushover.conf"],
        Return (l, form_of l sample_config "hello -priority high" "0"))).
Proof.
  intros rest l. split; [reflexivity|]. split; [reflexivity|].
  exact (proj2 (flags_after_the_message_are_text w_ok "hello" rest
                  sample_config eq_refl eq_refl)).
Defined.

Lemma positional_arguments_are_a_suffix_witness :
  let argv := ["-title"; "A"; "--"; "-x"; "y"] in
  let l := parsed_vars "" "A" 3600 false in
  let f := parsed_flags [("title", "A")] ["-x"; "y"] in
  (flag.Parse argv (main_flags main_vars) = ([], Return (l, f))
   ∧ ∃ used, argv = used ++ flag.Args f).
Proof.
  intros argv l f.
  assert (HP : flag.Parse argv (main_flags main_vars) = ([], Return (l, f)))
    by reflexivity.
  split; [exact HP|]. exact (positional_arguments_are_a_suffix argv [] l f HP).
Defined.

Lemma flags_bound_to_their_variables_witness :
  let argv := ["-title"; "A"; "-timeout"; "5s"; "-title=B"; "hello"] in
  let l := mkLocals "/etc/pushover.conf" "" "B" 3600 3600 (5 * Second) false in
  let f :=
    parsed_flags [("title", "A"); ("timeout", "5s"); ("title", "B")]
      ["hello"] in
  (flag.Parse argv (main_flags main_vars) = ([], Return (l, f))
   ∧ bound_to_flags l (flag.actual f)).
Proof.
  intros argv l f.
  assert (HP : flag.Parse argv (main_flags main_vars) = ([], Return (l, f)))
    by reflexivity.
  split; [exact HP|]. exact (flags_bound_to_their_variables argv [] l f HP).
Defined.

Lemma QueryEscape_injective_witness :
  url.QueryEscape "a b&c" = "a+b%26c"
  ∧ ∀ b, url.QueryEscape b = "a+b%26c" → b = "a b&c".
Proof.
  split; [reflexivity|]. intros b Hb. symmetry.
  apply (QueryEscape_injective "a b&c" b). rewrite Hb. reflexivity.
Defined.

Lemma body_has_one_pair_per_field_witness :
  let argv := ["-title"; "a=b&c"; "x&y=z"] in
  let l := parsed_vars "" "a=b&c" 3600 false in
  let data := form_of l sample_config "x&y=z" "0" in
  (World_ok w_backwards
   ∧ main_request w_backwards argv
     = ([ParseFile "/etc/pushover.conf"], Return (l, data))
   ∧ Body (request_of w_backwards l data)
     = "message=x%26y%3Dz&title=a%3Db%26c&token=tok&user=usr"
   ∧ count_byte "=" (Body (request_of w_backwards l data)) = size data
   ∧ S (count_byte "&" (Body (request_of w_backwards l data))) = size data).
Proof.
  intros argv l data.
  assert (HR : main_request w_backwards argv
               = ([ParseFile "/etc/pushover.conf"], Return (l, data)))
    by reflexivity.
  split; [apply World_ok_world_backwards|]. split; [exact HR|].
  split; [reflexivity|].
  exact (body_has_one_pair_per_field w_backwards argv _ l data
           (World_ok_world_backwards _ _) HR).
Defined.

Lemma priority_code_is_accepted_witness :
  main_priority "highest" = ([], Return "2")
  ∧ main_priority "2" = ([], Return "2").
Proof.
  assert (Hp : main_priority "highest" = ([], Return "2")) by reflexivity.
  split; [exact Hp|]. exact (priority_code_is_accepted "highest" [] "2" Hp).
Defined.

Lemma stdout_only_for_printconfig_witness :
  events (main w_missing ["-printconfig"; "-priority"; "bogus"])
  = [StdoutDescribe]
  ∧ main w_missing ["-printconfig"; "-priority"; "bogus"]
    = ([StdoutDescribe], Exit 0).
Proof.
  assert (E : events (main w_missing ["-printconfig"; "-priority"; "bogus"])
              = [StdoutDescribe]) by reflexivity.
  split; [exact E|].
  apply stdout_only_for_printconfig. rewrite E.
  apply list_elem_of_In. simpl. tauto.
Defined.
